(** * Web-Scraper-Service: the extraction engine, embedded and verified

    A shallow embedding of [scrapers/base.py], [scrapers/text_scraper.py]
    and [scrapers/url_scraper.py] (with [config.py] and the request
    validation of [app.py]), followed by the properties of the engine
    that the specification states.

    Python text is a list of Unicode code points.  Dictionaries returned
    to the caller are finite maps from field names to values.  The parsed
    document is a tree of tags, text nodes and comments, as BeautifulSoup
    builds it.  The network, the HTML parser and the URL library are
    inputs of the model. *)

From Stdlib Require Import NArith ZArith Lia Bool Btauto List Sorted Ascii String DecimalString.
From stdpp Require Import base option list gmap strings.
Import ListNotations.

Set Default Proof Using "Type".

(* ===================================================================== *)
(** ** Python strings *)
(* ===================================================================== *)

Module PyStr.

(** A character is a code point; a [str] is a sequence of them. *)
Definition char := N.
Definition str := list char.

(** A literal of the source, written as a Rocq string. *)
Definition lit (s : string) : str :=
  List.map N_of_ascii (list_ascii_of_string s).

Definition char_eqb (a b : char) : bool := N.eqb a b.

Fixpoint eqb (s t : str) : bool :=
  match s, t with
  | [], [] => true
  | a :: s', b :: t' => char_eqb a b && eqb s' t'
  | _, _ => false
  end.

(** [str.isspace] on one character.  CPython's [Py_UNICODE_ISSPACE]
    is also what [str.strip()], [str.split()] and the regular
    expression class [\s] consult. *)
Definition isspace (c : char) : bool :=
  ((9 <=? c) && (c <=? 13)         (* \t \n \v \f \r *)
   || (28 <=? c) && (c <=? 32)     (* FS GS RS US and the space *)
   || (c =? 133) || (c =? 160)     (* NEL, no-break space *)
   || (c =? 5760)
   || (8192 <=? c) && (c <=? 8202)
   || (c =? 8232) || (c =? 8233) || (c =? 8239) || (c =? 8287)
   || (c =? 12288))%N.

(** The line boundaries of [str.splitlines]. *)
Definition is_linebreak (c : char) : bool :=
  ((c =? 10) || (c =? 13) || (c =? 11) || (c =? 12)
   || (c =? 28) || (c =? 29) || (c =? 30)
   || (c =? 133) || (c =? 8232) || (c =? 8233))%N.

Definition space : char := 32%N.

(** [s.startswith(p)] *)
Fixpoint startswith (p s : str) : bool :=
  match p, s with
  | [], _ => true
  | a :: p', b :: s' => char_eqb a b && startswith p' s'
  | _ :: _, [] => false
  end.

(** [s.startswith((p1, p2, ...))] *)
Definition startswith_any (ps : list str) (s : str) : bool :=
  existsb (fun p => startswith p s) ps.

(** [s.endswith(p)] *)
Definition endswith (p s : str) : bool :=
  startswith (rev p) (rev s).

(** [s.lstrip()], [s.rstrip()], [s.strip()] *)
Fixpoint lstrip (s : str) : str :=
  match s with
  | [] => []
  | c :: s' => if isspace c then lstrip s' else s
  end.

Fixpoint rstrip (s : str) : str :=
  match s with
  | [] => []
  | c :: s' =>
      match rstrip s' with
      | [] => if isspace c then [] else [c]
      | r => c :: r
      end
  end.

Definition strip (s : str) : str := rstrip (lstrip s).

(** [sep.join(parts)] *)
Fixpoint join (sep : str) (parts : list str) : str :=
  match parts with
  | [] => []
  | [p] => p
  | p :: ps => p ++ sep ++ join sep ps
  end.

(** [s.splitlines()]: [cur] holds the current line, reversed.  A line
    break closes the line; ["\r\n"] counts as one break; a last line
    without a break is kept when it is not empty. *)
Fixpoint splitlines_from (cur : str) (s : str) : list str :=
  match s with
  | [] => match cur with [] => [] | _ => [rev cur] end
  | c :: s' =>
      if is_linebreak c then
        rev cur ::
          match s' with
          | d :: s'' =>
              if (c =? 13)%N && (d =? 10)%N
              then splitlines_from [] s''
              else splitlines_from [] s'
          | [] => splitlines_from [] s'
          end
      else splitlines_from (c :: cur) s'
  end.

Definition splitlines (s : str) : list str := splitlines_from [] s.

(** [s.split(sep)] for a non-empty [sep]: occurrences are found left
    to right and do not overlap.  [skip] counts the characters of a
    separator just matched that are still to be passed over. *)
Fixpoint split_from (sep : str) (skip : nat) (cur : str) (s : str) : list str :=
  match s with
  | [] => [rev cur]
  | c :: s' =>
      match skip with
      | S k => split_from sep k cur s'
      | O =>
          if startswith sep s
          then rev cur :: split_from sep (length sep - 1) [] s'
          else split_from sep 0 (c :: cur) s'
      end
  end.

Definition split (sep : str) (s : str) : list str := split_from sep 0 [] s.

(** [s.split()]: the whitespace-delimited tokens. *)
Fixpoint split_ws_from (cur : str) (s : str) : list str :=
  match s with
  | [] => match cur with [] => [] | _ => [rev cur] end
  | c :: s' =>
      if isspace c then
        match cur with
        | [] => split_ws_from [] s'
        | _ => rev cur :: split_ws_from [] s'
        end
      else split_ws_from (c :: cur) s'
  end.

Definition split_ws (s : str) : list str := split_ws_from [] s.

(** [re.sub(r'\s+', ' ', s)]: every maximal run of whitespace becomes
    one space.  [in_run] tells that the previous character was
    whitespace. *)
Fixpoint sub_ws_from (in_run : bool) (s : str) : str :=
  match s with
  | [] => []
  | c :: s' =>
      if isspace c
      then if in_run then sub_ws_from true s' else space :: sub_ws_from true s'
      else c :: sub_ws_from false s'
  end.

Definition sub_ws (s : str) : str := sub_ws_from false s.

(** [s.lower()], one character at a time.  ASCII capitals move to their
    small letters.  Of the code points above ASCII only two lower-case
    into ASCII: U+0130 (to "i" and U+0307) and the Kelvin sign U+212A
    (to "k"); the others stay outside ASCII under [lower] and are left
    as they are here, which no comparison with an ASCII literal can
    tell apart. *)
Definition lower_char (c : char) : str :=
  if ((65 <=? c) && (c <=? 90))%N then [(c + 32)%N]
  else if (c =? 304)%N then [105%N; 775%N]
  else if (c =? 8490)%N then [107%N]
  else [c].

Definition lower (s : str) : str := flat_map lower_char s.

(** [substring in s] *)
Fixpoint contains (p s : str) : bool :=
  startswith p s ||
  match s with
  | [] => false
  | _ :: s' => contains p s'
  end.

(** [str(n)] for an [int]. *)
Definition of_int (n : Z) : str := lit (NilZero.string_of_int (Z.to_int n)).

Definition nonempty (s : str) : bool :=
  match s with [] => false | _ => true end.

(** [re.split(r'[.!?]+', s)]: the text is cut at every maximal run of
    [.], [!] and [?]; the pieces before the first run and after the last
    one are kept even when they are empty. *)
Definition is_sentence_end (c : char) : bool :=
  ((c =? 46) || (c =? 33) || (c =? 63))%N.

Fixpoint re_split_from (sep : char -> bool) (in_run : bool) (cur : str) (s : str)
    : list str :=
  match s with
  | [] => [rev cur]
  | c :: s' =>
      if sep c
      then if in_run then re_split_from sep true cur s'
           else rev cur :: re_split_from sep true [] s'
      else re_split_from sep false (c :: cur) s'
  end.

Definition re_split (sep : char -> bool) (s : str) : list str :=
  re_split_from sep false [] s.

(** Slices: [l[:n]] for any integer [n], [l[n:]] for [n >= 0] and
    [l[-n:]] for [n > 0]. *)
Definition slice_to {A : Type} (n : Z) (l : list A) : list A :=
  if (0 <=? n)%Z then firstn (Z.to_nat n) l
  else firstn (length l - Z.to_nat (- n)) l.

Definition slice_from {A : Type} (n : nat) (l : list A) : list A := skipn n l.

Definition slice_last {A : Type} (n : nat) (l : list A) : list A :=
  skipn (length l - n) l.

End PyStr.

Import PyStr.

(* ===================================================================== *)
(** ** The parsed document *)
(* ===================================================================== *)

(** What [BeautifulSoup(content, 'html.parser')] builds: text nodes,
    strings that are not page text (comments, declarations) and tags.
    A tag has a name, its single-valued attributes by name ([href], [id],
    [title], [content], ...), the value of its [class] attribute, which
    BeautifulSoup keeps as a list of tokens ([None] when the tag has no
    such attribute), and its contents.  The soup itself is the list of
    the top-level nodes. *)
#[local] Unset Elimination Schemes.
Inductive node : Type :=
| Text (s : str)
| Comment (s : str)
| Tag (name : str) (attrs : list (str * str)) (class_ : option (list str))
      (contents : list node).
#[local] Set Elimination Schemes.

Definition soup := list node.

(** A test on a tag that reads its name and attributes only, as the
    name lists, attribute filters and CSS selectors of the scrapers do. *)
Definition matcher := str -> list (str * str) -> option (list str) -> bool.

Definition matches (m : matcher) (n : node) : bool :=
  match n with
  | Tag name attrs cls _ => m name attrs cls
  | _ => false
  end.

(** [tag.get(key)] on the single-valued attributes. *)
Fixpoint get_attr (key : str) (attrs : list (str * str)) : option str :=
  match attrs with
  | [] => None
  | (k, v) :: rest => if PyStr.eqb k key then Some v else get_attr key rest
  end.

Definition tag_attrs (n : node) : list (str * str) :=
  match n with Tag _ attrs _ _ => attrs | _ => [] end.

Definition tag_class (n : node) : option (list str) :=
  match n with Tag _ _ cls _ => cls | _ => None end.

Definition tag_contents (n : node) : list node :=
  match n with Tag _ _ _ kids => kids | _ => [] end.

(** [tag.descendants]: every node below, in document order. *)
Fixpoint descendants (n : node) : list node :=
  match n with
  | Tag _ _ _ kids =>
      (fix below (ks : list node) : list node :=
         match ks with
         | [] => []
         | k :: ks' => k :: descendants k ++ below ks'
         end) kids
  | _ => []
  end.

Fixpoint descendants_of (ks : list node) : list node :=
  match ks with
  | [] => []
  | k :: ks' => k :: descendants k ++ descendants_of ks'
  end.

(** [soup.find_all(...)] and [soup.find(...)] *)
Definition find_all (m : matcher) (s : soup) : list node :=
  List.filter (matches m) (descendants_of s).

Definition find (m : matcher) (s : soup) : option node :=
  head (find_all m s).

(** [tag.get_text()] and [tag.get_text(strip=True)]: the text nodes
    below, in document order, joined without separator; with [strip]
    each one is stripped and dropped when nothing is left of it. *)
Definition text_of (strip_ : bool) (n : node) : list str :=
  match n with
  | Text s =>
      if strip_
      then (if nonempty (strip s) then [strip s] else [])
      else [s]
  | _ => []
  end.

Definition get_text (strip_ : bool) (s : soup) : str :=
  concat (flat_map (text_of strip_) (descendants_of s)).

(** The effect of [for element in found: element.decompose()] where
    [found] holds every tag that matches [m]: each of them leaves the
    tree with all it contains. *)
Fixpoint prune (m : matcher) (n : node) : node :=
  match n with
  | Tag name attrs cls kids =>
      Tag name attrs cls
        ((fix go (ks : list node) : list node :=
            match ks with
            | [] => []
            | k :: ks' => if matches m k then go ks' else prune m k :: go ks'
            end) kids)
  | _ => n
  end.

Fixpoint decompose_all (m : matcher) (s : soup) : soup :=
  match s with
  | [] => []
  | k :: ks => if matches m k then decompose_all m ks else prune m k :: decompose_all m ks
  end.

(** Matchers of the scrapers. *)
Definition named (nm : string) : matcher :=
  fun name _ _ => PyStr.eqb name (lit nm).

Definition named_any (nms : list string) : matcher :=
  fun name _ _ => existsb (fun nm => PyStr.eqb name (lit nm)) nms.

(** [find('meta', attrs={key: val})] *)
Definition meta_with (key val : string) : matcher :=
  fun name attrs _ =>
    PyStr.eqb name (lit "meta") &&
    match get_attr (lit key) attrs with
    | Some v => PyStr.eqb v (lit val)
    | None => false
    end.

(** The CSS selector [[attr*="needle"]]: the attribute is there and its
    value has [needle] as a substring; the tokens of [class] are joined
    by one space before the search. *)
Definition attr_contains (attr needle : string) : matcher :=
  fun _ attrs cls =>
    if String.eqb attr "class"
    then match cls with
         | Some toks => contains (lit needle) (join [space] toks)
         | None => false
         end
    else match get_attr (lit attr) attrs with
         | Some v => contains (lit needle) v
         | None => false
         end.

(* ===================================================================== *)
(** ** Configuration, failures and response envelopes *)
(* ===================================================================== *)

(** The two settings of [config.py] that the scrapers read. *)
Record Config := {
  REQUEST_TIMEOUT : Z;
  MAX_CONTENT_LENGTH : Z
}.

(** The default values of [config.py]. *)
Definition default_config : Config :=
  {| REQUEST_TIMEOUT := 10; MAX_CONTENT_LENGTH := 1000000 |}.

(** The exceptions that [handle_request_errors] tells apart, each with
    its [str(error)]: a [requests] timeout, any other
    [RequestException] (connection failure, error status raised by
    [raise_for_status]), and anything else. *)
Inductive exn : Type :=
| TimeoutError (msg : str)
| RequestException (msg : str)
| OtherException (msg : str).

Inductive result (A : Type) : Type :=
| Ok (a : A)
| Raise (e : exn).
Arguments Ok {A} a.
Arguments Raise {A} e.

Definition bytes := list Byte.byte.

Inductive link_kind : Type :=
| email | phone | ftp | anchor | javascript | file | web.

(** The dictionary built for one link in [_extract_links]. *)
Record link := {
  link_id : Z;
  link_url : str;
  link_original_href : str;
  link_text : str;
  link_title : str;
  link_class : str;
  link_is_relative : bool;
  link_is_external : bool;
  link_type : link_kind
}.

(** Values that the fields of a response hold.  [VSeconds] is a time in
    seconds rounded to two decimals, counted in hundredths. *)
Inductive value : Type :=
| VNone
| VBool (b : bool)
| VInt (n : Z)
| VSeconds (hundredths : Z)
| VStr (s : str)
| VLinks (ls : list link)
| VHeadings (h : gmap string (list str)).

Abbreviation envelope := (gmap string value).

(** What a call reads from outside: the answer of the one GET request
    (after [raise_for_status]), the parser, [urllib.parse.urljoin]
    ([Raise] when it raises, as it does with [ValueError] for an [href]
    such as ["http://[bad"]), the [netloc] of [urllib.parse.urlparse]
    ([None] when it raises), the elapsed time already rounded, and the
    timestamp. *)
Record world := {
  http_get : str -> result bytes;
  html_parser : bytes -> result soup;
  urljoin : str -> str -> result str;
  urlparse_netloc : str -> option str;
  elapsed : Z;
  utcnow : str
}.

(* ===================================================================== *)
(** ** scrapers/base.py *)
(* ===================================================================== *)

(** The pair that [validate_url] returns has the URL or the error
    message, never both. *)
Inductive validated : Type :=
| Valid (url : str)
| Invalid (error : str).

Definition http_prefixes : list str := [lit "http://"; lit "https://"].

Definition validate_url (url : str) : validated :=
  if negb (nonempty url) then Invalid (lit "URL cannot be empty")
  else
    let url := strip url in
    let url := if negb (startswith_any http_prefixes url)
               then lit "https://" ++ url else url in
    Valid url.

Definition get_page_response (w : world) (url : str) : result bytes :=
  http_get w url.

Definition create_error_response (w : world) (error_msg : str) : envelope :=
  list_to_map
    [("success", VBool false);
     ("processing_time", VSeconds (elapsed w));
     ("timestamp", VStr (utcnow w));
     ("error", VStr error_msg)].

Definition handle_request_errors (w : world) (cfg : Config) (error : exn) : envelope :=
  let error_msg :=
    match error with
    | TimeoutError _ =>
        lit "Request timeout after " ++ of_int (REQUEST_TIMEOUT cfg) ++ lit " seconds"
    | RequestException msg => lit "Request failed: " ++ msg
    | OtherException msg => lit "Unexpected error: " ++ msg
    end in
  create_error_response w error_msg.

(** [validate_url_request] of [app.py], the check in front of both
    routes; [None] stands for a request without a [url] field. *)
Definition validate_url_request (data : option str) : validated :=
  match data with
  | None => Invalid (lit "Missing required field: url")
  | Some u =>
      let url := strip u in
      if negb (nonempty url) then Invalid (lit "URL cannot be empty")
      else
        let url := if negb (startswith_any http_prefixes url)
                   then lit "https://" ++ url else url in
        Valid url
  end.

(* ===================================================================== *)
(** ** scrapers/text_scraper.py *)
(* ===================================================================== *)

Module TextScraper.

(** The dictionary that [_extract_text_content] returns. *)
Record text_data := {
  td_text : str;
  td_title : str;
  td_meta_description : str;
  td_headings : gmap string (list str);
  td_word_count : Z;
  td_character_count : Z
}.

Definition unwanted_selectors : list matcher :=
  [attr_contains "class" "nav";
   attr_contains "class" "menu";
   attr_contains "class" "sidebar";
   attr_contains "class" "footer";
   attr_contains "class" "header";
   attr_contains "id" "nav";
   attr_contains "id" "menu";
   attr_contains "id" "sidebar";
   attr_contains "id" "footer";
   attr_contains "id" "header"].

(** [_remove_unwanted_elements]: the three loops, one after the other,
    each on the tree that the one before left. *)
Definition _remove_unwanted_elements (s : soup) : soup :=
  let s := decompose_all (named_any ["script"; "style"]) s in
  let s := decompose_all (named_any ["nav"; "header"; "footer"; "aside"]) s in
  fold_left (fun s selector => decompose_all selector s) unwanted_selectors s.

Definition _clean_text (text : str) : str :=
  let lines := List.map strip (splitlines text) in
  let chunks :=
    flat_map (fun line => List.map strip (split (lit "  ") line)) lines in
  let cleaned := join (lit " ") (List.filter nonempty chunks) in
  let cleaned := sub_ws cleaned in
  strip cleaned.

Definition _extract_title (s : soup) : str :=
  match find (named "title") s with
  | Some title => get_text true (tag_contents title)
  | None =>
      match find (meta_with "property" "og:title") s with
      | Some og_title => default [] (get_attr (lit "content") (tag_attrs og_title))
      | None =>
          match find (named "h1") s with
          | Some h1 => get_text true (tag_contents h1)
          | None => []
          end
      end
  end.

Definition _extract_meta_description (s : soup) : str :=
  match find (meta_with "name" "description") s with
  | Some meta_desc => default [] (get_attr (lit "content") (tag_attrs meta_desc))
  | None =>
      match find (meta_with "property" "og:description") s with
      | Some og_desc => default [] (get_attr (lit "content") (tag_attrs og_desc))
      | None => []
      end
  end.

Definition heading_texts (level : string) (s : soup) : list str :=
  List.map (fun h => get_text true (tag_contents h)) (find_all (named level) s).

Definition heading_levels : list string := ["h1"; "h2"; "h3"; "h4"; "h5"; "h6"].

Definition _extract_headings (s : soup) : gmap string (list str) :=
  list_to_map (List.map (fun level => (level, heading_texts level s)) heading_levels).

(** [_extract_text_content] changes the soup it is given and reads the
    metadata from the changed soup. *)
Definition _extract_text_content (s : soup) : text_data :=
  let s := _remove_unwanted_elements s in
  let text := get_text false s in
  let cleaned_text := _clean_text text in
  let title := _extract_title s in
  let meta_description := _extract_meta_description s in
  let headings := _extract_headings s in
  {| td_text := cleaned_text;
     td_title := title;
     td_meta_description := meta_description;
     td_headings := headings;
     td_word_count := Z.of_nat (length (split_ws cleaned_text));
     td_character_count := Z.of_nat (length cleaned_text) |}.

Definition _create_empty_response (w : world) (error_msg : str) : envelope :=
  list_to_map
    [("success", VBool false);
     ("text", VStr []);
     ("title", VStr []);
     ("meta_description", VStr []);
     ("headings", VHeadings ∅);
     ("word_count", VInt 0);
     ("character_count", VInt 0);
     ("processing_time", VSeconds (elapsed w));
     ("timestamp", VStr (utcnow w));
     ("error", VStr error_msg)].

Definition success_response (w : world) (d : text_data) : envelope :=
  list_to_map
    [("success", VBool true);
     ("text", VStr (td_text d));
     ("title", VStr (td_title d));
     ("meta_description", VStr (td_meta_description d));
     ("headings", VHeadings (td_headings d));
     ("word_count", VInt (td_word_count d));
     ("character_count", VInt (td_character_count d));
     ("processing_time", VSeconds (elapsed w));
     ("timestamp", VStr (utcnow w));
     ("error", VNone)].

(** [scrape]: every exception raised inside the [try] ends in
    [handle_request_errors]. *)
Definition scrape (w : world) (cfg : Config) (url : str) : envelope :=
  match validate_url url with
  | Invalid error => _create_empty_response w error
  | Valid url =>
      match get_page_response w url with
      | Raise e => handle_request_errors w cfg e
      | Ok content =>
          let size := Z.of_nat (length content) in
          if (size >? MAX_CONTENT_LENGTH cfg)%Z then
            _create_empty_response w
              (lit "Content too large: " ++ of_int size ++ lit " bytes (max: "
               ++ of_int (MAX_CONTENT_LENGTH cfg) ++ lit ")")
          else
            match html_parser w content with
            | Raise e => handle_request_errors w cfg e
            | Ok s => success_response w (_extract_text_content s)
            end
      end
  end.

(** [get_summary]: the envelope of [scrape], with [summary] and
    [total_sentences] added when the scrape succeeded with some text. *)
Definition summary_sentences (text : str) : list str :=
  let sentences := re_split is_sentence_end text in
  List.map strip (List.filter (fun s => nonempty (strip s)) sentences).

Definition summary_of (sentences : list str) (max_sentences : Z) : str :=
  let summary := join (lit ". ") (slice_to max_sentences sentences) in
  if nonempty summary && negb (endswith (lit ".") summary)
  then summary ++ lit "."
  else summary.

Definition get_summary (w : world) (cfg : Config) (url : str) (max_sentences : Z)
    : envelope :=
  let result := scrape w cfg url in
  match result !! "success", result !! "text" with
  | Some (VBool true), Some (VStr text) =>
      if nonempty text then
        let sentences := summary_sentences text in
        let summary := summary_of sentences max_sentences in
        <["total_sentences" := VInt (Z.of_nat (length sentences))]>
          (<["summary" := VStr summary]> result)
      else result
  | _, _ => result
  end.

(** [get_main_content] adds nothing to [scrape]. *)
Definition get_main_content (w : world) (cfg : Config) (url : str) : envelope :=
  scrape w cfg url.

End TextScraper.

(* ===================================================================== *)
(** ** scrapers/url_scraper.py *)
(* ===================================================================== *)

Module URLScraper.

Definition _is_external_link (w : world) (link_url base_url : str) : bool :=
  match urlparse_netloc w link_url with
  | None => false
  | Some link_domain =>
      match urlparse_netloc w base_url with
      | None => false
      | Some base_domain =>
          negb (PyStr.eqb link_domain base_domain) && negb (PyStr.eqb link_domain [])
      end
  end.

Definition file_extensions : list string :=
  [".pdf"; ".doc"; ".docx"; ".xls"; ".xlsx"; ".zip"; ".rar"].

Definition _get_link_type (href : str) : link_kind :=
  if startswith (lit "mailto:") href then email
  else if startswith (lit "tel:") href then phone
  else if startswith (lit "ftp:") href then ftp
  else if startswith (lit "#") href then anchor
  else if startswith (lit "javascript:") href then javascript
  else if existsb (fun ext => endswith (lit ext) (lower href)) file_extensions then file
  else web.

Definition absolute_prefixes : list str :=
  [lit "http://"; lit "https://"; lit "mailto:"; lit "tel:"; lit "ftp://"].

(** [find_all('a', href=True)] *)
Definition anchor_with_href : matcher :=
  fun name attrs _ =>
    PyStr.eqb name (lit "a") &&
    match get_attr (lit "href") attrs with Some _ => true | None => false end.

(** The body of the loop of [_extract_links], for the anchor at index
    [i] of the enumeration.  [urljoin] is called outside any [try] of
    [_extract_links]: when it raises, the loop is left with its
    exception. *)
Definition link_obj (w : world) (base_url : str) (i : nat) (a : node) : result link :=
  let href := default [] (get_attr (lit "href") (tag_attrs a)) in
  match urljoin w base_url href with
  | Raise e => Raise e
  | Ok full_url =>
      let text := get_text true (tag_contents a) in
      let is_relative := negb (startswith_any absolute_prefixes href) in
      let title := default [] (get_attr (lit "title") (tag_attrs a)) in
      let class := join (lit " ") (default [] (tag_class a)) in
      Ok {| link_id := Z.of_nat i + 1;
            link_url := full_url;
            link_original_href := href;
            link_text := text;
            link_title := title;
            link_class := class;
            link_is_relative := is_relative;
            link_is_external := _is_external_link w full_url base_url;
            link_type := _get_link_type href |}
  end.

(** The loop over [enumerate(soup.find_all('a', href=True))], from index
    [i] on: the links are appended in order, and the first anchor whose
    [urljoin] raises ends the loop with that exception. *)
Fixpoint extract_from (w : world) (base_url : str) (i : nat) (anchors : list node)
    : result (list link) :=
  match anchors with
  | [] => Ok []
  | a :: rest =>
      match link_obj w base_url i a with
      | Raise e => Raise e
      | Ok l =>
          match extract_from w base_url (S i) rest with
          | Raise e => Raise e
          | Ok ls => Ok (l :: ls)
          end
      end
  end.

Definition _extract_links (w : world) (s : soup) (base_url : str) : result (list link) :=
  extract_from w base_url 0 (find_all anchor_with_href s).

Definition _create_empty_response (w : world) (error_msg : str) : envelope :=
  list_to_map
    [("success", VBool false);
     ("urls", VLinks []);
     ("count", VInt 0);
     ("processing_time", VSeconds (elapsed w));
     ("timestamp", VStr (utcnow w));
     ("error", VStr error_msg)].

Definition success_response (w : world) (links : list link) : envelope :=
  list_to_map
    [("success", VBool true);
     ("urls", VLinks links);
     ("count", VInt (Z.of_nat (length links)));
     ("processing_time", VSeconds (elapsed w));
     ("timestamp", VStr (utcnow w));
     ("error", VNone)].

Definition scrape (w : world) (cfg : Config) (url : str) : envelope :=
  match validate_url url with
  | Invalid error => _create_empty_response w error
  | Valid url =>
      match get_page_response w url with
      | Raise e => handle_request_errors w cfg e
      | Ok content =>
          match html_parser w content with
          | Raise e => handle_request_errors w cfg e
          | Ok s =>
              match _extract_links w s url with
              | Raise e => handle_request_errors w cfg e
              | Ok links => success_response w links
              end
          end
      end
  end.

(** The strings that [_get_link_type] returns. *)
Definition link_kind_name (k : link_kind) : str :=
  match k with
  | email => lit "email"
  | phone => lit "phone"
  | ftp => lit "ftp"
  | anchor => lit "anchor"
  | javascript => lit "javascript"
  | file => lit "file"
  | web => lit "web"
  end.

(** The two filters over the result of [scrape]: on success [urls] and
    [count] are replaced, a failure is passed on as it is. *)
Definition filtered_result (keep : link -> bool) (result : envelope) : envelope :=
  match result !! "success", result !! "urls" with
  | Some (VBool true), Some (VLinks urls) =>
      let filtered_urls := List.filter keep urls in
      <["count" := VInt (Z.of_nat (length filtered_urls))]>
        (<["urls" := VLinks filtered_urls]> result)
  | _, _ => result
  end.

Definition get_links_by_type (w : world) (cfg : Config) (url : str) (link_type_ : str)
    : envelope :=
  filtered_result
    (fun link => PyStr.eqb (link_kind_name (link_type link)) link_type_)
    (scrape w cfg url).

Definition get_external_links (w : world) (cfg : Config) (url : str) : envelope :=
  filtered_result link_is_external (scrape w cfg url).

End URLScraper.

(* ===================================================================== *)
(** ** auth.py *)
(* ===================================================================== *)

Module Auth.

(** What the manager records for a key. *)
Record key_info := {
  name : str;
  created_at : str;
  active : bool
}.

(** [self.api_keys]: a dictionary from keys to their records, in the
    order of insertion. *)
Definition key_store := list (str * key_info).

(** [d.get(k)] *)
Fixpoint store_get (k : str) (d : key_store) : option key_info :=
  match d with
  | [] => None
  | (k', v) :: rest => if PyStr.eqb k' k then Some v else store_get k rest
  end.

(** [d[k] = v]: a key that is there keeps its place and gets the new
    record, a new key goes to the end. *)
Fixpoint store_set (k : str) (v : key_info) (d : key_store) : key_store :=
  match d with
  | [] => [(k, v)]
  | (k', v') :: rest =>
      if PyStr.eqb k' k then (k', v) :: rest else (k', v') :: store_set k v rest
  end.

Definition new_key (name_ now : str) : key_info :=
  {| name := name_; created_at := now; active := true |}.

(** The loop over the comma-separated [API_KEYS]. *)
Definition load_env_keys (now env_keys : str) (api_keys : key_store) : key_store :=
  if nonempty env_keys then
    fold_left
      (fun d key =>
         let key := strip key in
         if nonempty key then store_set key (new_key (lit "env_key") now) d else d)
      (split (lit ",") env_keys) api_keys
  else api_keys.

(** The loop over the lines of the keys file. *)
Definition load_file_line (now : str) (d : key_store) (line : str) : key_store :=
  let line := strip line in
  if nonempty line && negb (startswith (lit "#") line) then
    let parts := split (lit "|") line in
    let key := strip (hd [] parts) in
    let name_ :=
      match parts with
      | _ :: p1 :: _ => strip p1
      | _ => lit "file_key"
      end in
    store_set key (new_key name_ now) d
  else d.

(** [_load_api_keys].  [env_keys] is the value of [API_KEYS] (empty
    when unset), [keys_file] the lines that were read from the keys file
    ([None] when there is no file), [default_key] the value of
    [DEFAULT_API_KEY], [now] the time of loading. *)
Definition _load_api_keys (env_keys : str) (keys_file : option (list str))
    (default_key now : str) : key_store :=
  let api_keys := load_env_keys now env_keys [] in
  let api_keys :=
    match keys_file with
    | Some lines => fold_left (load_file_line now) lines api_keys
    | None => api_keys
    end in
  match api_keys with
  | [] => store_set default_key (new_key (lit "default_development_key") now) api_keys
  | _ => api_keys
  end.

(** [validate_api_key]; the argument is [None] when the request has no
    key at all. *)
Definition validate_api_key (api_keys : key_store) (api_key : option str)
    : option key_info :=
  match api_key with
  | None => None
  | Some k =>
      if negb (nonempty k) then None
      else
        match store_get k api_keys with
        | Some info => if active info then Some info else None
        | None => None
        end
  end.

(** [generate_api_key]; [token] is what [secrets.token_urlsafe(32)]
    gives.  The new key and the store after the call. *)
Definition generate_api_key (token now name_ : str) (api_keys : key_store)
    : str * key_store :=
  let key := lit "sk-" ++ token in
  (key, store_set key (new_key name_ now) api_keys).

(** [revoke_api_key]: the answer and the store after the call. *)
Definition revoke_api_key (api_key : str) (api_keys : key_store) : bool * key_store :=
  match store_get api_key api_keys with
  | Some info =>
      (true,
       store_set api_key
         {| name := name info; created_at := created_at info; active := false |}
         api_keys)
  | None => (false, api_keys)
  end.

Record key_listing := {
  key_id : str;
  listed_name : str;
  listed_created_at : str;
  listed_active : bool
}.

Definition mask_key (key : str) : str :=
  slice_to 8 key ++ lit "..." ++ slice_last 4 key.

Definition list_api_keys (api_keys : key_store) : list key_listing :=
  List.map
    (fun kv =>
       {| key_id := mask_key kv.1;
          listed_name := name kv.2;
          listed_created_at := created_at kv.2;
          listed_active := active kv.2 |})
    api_keys.

(** The two headers that the decorators read. *)
Record headers := {
  x_api_key : option str;
  authorization : option str
}.

Definition truthy (o : option str) : bool :=
  match o with
  | Some s => nonempty s
  | None => false
  end.

(** The key that a request presents: [X-API-Key], or else the token of
    [Authorization: Bearer ...]. *)
Definition request_api_key (h : headers) : option str :=
  let api_key := x_api_key h in
  if negb (truthy api_key) then
    match authorization h with
    | Some auth_header =>
        if nonempty auth_header && startswith (lit "Bearer ") auth_header
        then Some (slice_from 7 auth_header)
        else api_key
    | None => api_key
    end
  else api_key.

(** A response of the service: the JSON body and the status code. *)
Definition response : Type := envelope * Z.

Definition unauthorized (error message_ : string) (w : world) : response :=
  (list_to_map
     [("success", VBool false);
      ("error", VStr (lit error));
      ("message", VStr (lit message_));
      ("timestamp", VStr (utcnow w))],
   401%Z).

(** [require_api_key(f)]: [f] gets the record of the key through
    [request.api_key_info]. *)
Definition require_api_key (api_keys : key_store) (w : world) (h : headers)
    (f : option key_info -> response) : response :=
  let api_key := request_api_key h in
  match validate_api_key api_keys api_key with
  | None =>
      unauthorized "Invalid or missing API key"
        "Please provide a valid API key in the X-API-Key header or Authorization header"
        w
  | Some info => f (Some info)
  end.

(** [optional_api_key(f)] *)
Definition optional_api_key (api_keys : key_store) (w : world) (h : headers)
    (f : option key_info -> response) : response :=
  let api_key := request_api_key h in
  if truthy api_key then
    match validate_api_key api_keys api_key with
    | None =>
        unauthorized "Invalid API key" "The provided API key is invalid" w
    | Some info => f (Some info)
    end
  else f None.

End Auth.

(* ===================================================================== *)
(** ** app.py: the two scraping routes *)
(* ===================================================================== *)

Module App.

Import Auth.

(** What a route reads from the request body: [Raise] when
    [request.get_json()] or the access to the [url] field raises (a body
    that is no JSON, a [url] that is no string), else the [url] string,
    [None] when the body is empty or has no [url] field. *)
Definition request_body := result (option str).

Definition exn_message (e : exn) : str :=
  match e with
  | TimeoutError msg | RequestException msg | OtherException msg => msg
  end.

Definition urls_error_body (w : world) (error : str) : envelope :=
  list_to_map
    [("success", VBool false);
     ("urls", VLinks []);
     ("count", VInt 0);
     ("processing_time", VInt 0);
     ("timestamp", VStr (utcnow w));
     ("error", VStr error)].

Definition text_error_body (w : world) (error : str) : envelope :=
  list_to_map
    [("success", VBool false);
     ("text", VStr []);
     ("title", VStr []);
     ("meta_description", VStr []);
     ("headings", VHeadings ∅);
     ("word_count", VInt 0);
     ("character_count", VInt 0);
     ("processing_time", VInt 0);
     ("timestamp", VStr (utcnow w));
     ("error", VStr error)].

Definition status_of (result : envelope) : Z :=
  match result !! "success" with
  | Some (VBool true) => 200
  | _ => 400
  end.

Definition route_exception_response (error_body : world -> str -> envelope) (w : world)
    (e : exn) : response :=
  (error_body w (lit "Internal server error: " ++ exn_message e), 500%Z).

(** The body of a scraping route, for the scraper and the error body of
    the route.  [pause] is what [time.sleep(Config.RATE_LIMIT_DELAY)]
    does: [None] when it returns, the exception when it raises (a
    negative delay). *)
Definition scrape_route (error_body : world -> str -> envelope)
    (scraper : world -> Config -> str -> envelope)
    (w : world) (cfg : Config) (pause : option exn) (body_ : request_body)
    : response :=
  match body_ with
  | Raise e => route_exception_response error_body w e
  | Ok data =>
      match validate_url_request data with
      | Invalid error => (error_body w error, 400%Z)
      | Valid url =>
          match pause with
          | Some e => route_exception_response error_body w e
          | None =>
              let result := scraper w cfg url in
              (result, status_of result)
          end
      end
  end.

Definition api_scrape_urls (api_keys : key_store) (w : world) (cfg : Config)
    (pause : option exn) (h : headers) (body_ : request_body) : response :=
  require_api_key api_keys w h
    (fun _ => scrape_route urls_error_body URLScraper.scrape w cfg pause body_).

Definition api_scrape_text (api_keys : key_store) (w : world) (cfg : Config)
    (pause : option exn) (h : headers) (body_ : request_body) : response :=
  require_api_key api_keys w h
    (fun _ => scrape_route text_error_body TextScraper.scrape w cfg pause body_).

End App.

(* ===================================================================== *)
(** ** Definitions used to state the properties *)
(* ===================================================================== *)

(** Text in which whitespace only occurs as single spaces between other
    characters.  [spaced prev s]: every whitespace character of [s] is
    the space and no two of them are neighbours, [prev] telling that a
    whitespace character comes right before [s]. *)
Fixpoint spaced (prev : bool) (s : str) : bool :=
  match s with
  | [] => true
  | c :: s' =>
      if isspace c
      then (c =? space)%N && negb prev && spaced true s'
      else spaced false s'
  end.

Definition ends_in_space (s : str) : bool :=
  match last s with
  | Some c => isspace c
  | None => false
  end.

Definition tidy (s : str) : bool := spaced true s && negb (ends_in_space s).

(** Text that does not begin with whitespace. *)
Definition starts_clean (s : str) : bool :=
  match s with
  | [] => true
  | c :: _ => negb (isspace c)
  end.

(** The tags that one or the other matcher names. *)
Definition either (m1 m2 : matcher) : matcher :=
  fun name attrs cls => m1 name attrs cls || m2 name attrs cls.

(** The noise elements: the six tag names of the two loops over tag
    names, and the tags whose [class] or [id] has one of the five
    substrings of the selectors. *)
Definition noise_tags : list string :=
  ["script"; "style"; "nav"; "header"; "footer"; "aside"].

Definition noise_substrings : list string :=
  ["nav"; "menu"; "sidebar"; "footer"; "header"].

Definition noise : matcher :=
  fun name attrs cls =>
    named_any noise_tags name attrs cls
    || existsb (fun sub => attr_contains "class" sub name attrs cls
                           || attr_contains "id" sub name attrs cls)
         noise_substrings.

(** [outside_noise s n]: the node [n] occurs in the document [s], it is
    not a noise element and no tag around it is one. *)
Inductive outside_noise : soup -> node -> Prop :=
| outside_top (s : soup) (n : node) :
    In n s -> matches noise n = false -> outside_noise s n
| outside_below (s : soup) (t n : node) :
    In t s -> matches noise t = false ->
    outside_noise (tag_contents t) n -> outside_noise s n.

(** The stripped text of a tag once the noise inside it is gone. *)
Definition text_without_noise (n : node) : str :=
  get_text true (tag_contents (prune noise n)).

(** The title rule as the specification words it: the candidates in
    order, the first non-empty one wins. *)
Definition found_text (o : option node) : str :=
  match o with
  | Some t => get_text true (tag_contents t)
  | None => []
  end.

Definition found_content (o : option node) : str :=
  match o with
  | Some t => default [] (get_attr (lit "content") (tag_attrs t))
  | None => []
  end.

Fixpoint first_nonempty (candidates : list str) : str :=
  match candidates with
  | [] => []
  | c :: rest => if nonempty c then c else first_nonempty rest
  end.

Definition title_by_first_nonempty (s : soup) : str :=
  first_nonempty
    [found_text (find (named "title") s);
     found_content (find (meta_with "property" "og:title") s);
     found_text (find (named "h1") s)].

(** The title rule on presence: the first candidate element that the
    document has gives the title, whatever its value. *)
Fixpoint first_present (candidates : list (option str)) : str :=
  match candidates with
  | [] => []
  | Some c :: _ => c
  | None :: rest => first_present rest
  end.

Definition title_by_first_present (s : soup) : str :=
  first_present
    [(fun t => get_text true (tag_contents t)) <$> find (named "title") s;
     (fun t => default [] (get_attr (lit "content") (tag_attrs t)))
       <$> find (meta_with "property" "og:title") s;
     (fun t => get_text true (tag_contents t)) <$> find (named "h1") s].

(** The [href] of an anchor. *)
Definition href_of (a : node) : str := default [] (get_attr (lit "href") (tag_attrs a)).

(** The file suffixes that the specification lists. *)
Definition listed_file_suffixes : list string :=
  [".pdf"; ".doc"; ".docx"; ".xls"; ".xlsx"; ".zip"; ".rar"].

(** The precedence table of the link types as the specification gives
    it: the first rule whose test holds gives the type. *)
Definition link_rules : list ((str -> bool) * link_kind) :=
  [(startswith (lit "mailto:"), email);
   (startswith (lit "tel:"), phone);
   (startswith (lit "ftp:"), ftp);
   (startswith (lit "#"), anchor);
   (startswith (lit "javascript:"), javascript);
   (fun href => existsb (fun suffix => endswith (lit suffix) (lower href))
                  listed_file_suffixes, file)].







Fixpoint first_match (rules : list ((str -> bool) * link_kind))
    (otherwise : link_kind) (href : str) : link_kind :=
  match rules with
  | [] => otherwise
  | (test, kind) :: rest => if test href then kind else first_match rest otherwise href
  end.

(** The payload fields of the two operations and their empty values. *)
Definition links_payload : list string := ["urls"; "count"].

Definition text_payload : list string :=
  ["text"; "title"; "meta_description"; "headings"; "word_count"; "character_count"].

Definition is_zero (v : value) : bool :=
  match v with
  | VInt n => (n =? 0)%Z
  | VStr s => negb (nonempty s)
  | VLinks ls => match ls with [] => true | _ => false end
  | VHeadings h => bool_decide (h = ∅)
  | _ => false
  end.

(** A failure envelope in the sense of the specification: [success] is
    false, [error] is a non-empty string and every payload field is
    there with its empty value. *)
Definition failure_shape (payload : list string) (e : envelope) : bool :=
  match e !! "success" with Some (VBool false) => true | _ => false end
  && match e !! "error" with Some (VStr msg) => nonempty msg | _ => false end
  && forallb (fun f => match e !! f with Some v => is_zero v | None => false end)
       payload.

(** What an envelope of a scraper tells about the outcome: the time
    fields, and either success without error or failure with a
    message. *)
Definition outcome (w : world) (e : envelope) : Prop :=
  e !! "processing_time" = Some (VSeconds (elapsed w))
  /\ e !! "timestamp" = Some (VStr (utcnow w))
  /\ ((e !! "success" = Some (VBool true) /\ e !! "error" = Some VNone)
      \/ (e !! "success" = Some (VBool false)
          /\ exists msg, e !! "error" = Some (VStr msg) /\ msg <> [])).

(** A store all of whose records are active. *)
Definition all_active (d : Auth.key_store) : Prop :=
  Forall (fun kv => Auth.active kv.2 = true) d.

(** One round of the loop over [API_KEYS]. *)
Definition env_step (now : str) (d : Auth.key_store) (key : str) : Auth.key_store :=
  let key := strip key in
  if nonempty key
  then Auth.store_set key (Auth.new_key (lit "env_key") now) d else d.

(** A response whose status goes with its body: 200 exactly when
    [success] is true, and 400, 401 or 500 with [success] false. *)
Definition status_matches (r : Auth.response) : Prop :=
  (r.2 = 200%Z <-> r.1 !! "success" = Some (VBool true))
  /\ (r.2 = 200%Z \/ r.1 !! "success" = Some (VBool false))
  /\ (r.2 = 200%Z \/ r.2 = 400%Z \/ r.2 = 401%Z \/ r.2 = 500%Z).

(** The requests that a scraping route answers itself, without calling
    the scraper: the body cannot be read, or its URL is refused. *)
Definition route_refuses (body_ : App.request_body) : bool :=
  match body_ with
  | Raise _ => true
  | Ok data =>
      match validate_url_request data with
      | Invalid _ => true
      | Valid _ => false
      end
  end.

(** *** Sample inputs *)

Definition tag (name : string) (attrs : list (string * string))
    (cls : option (list string)) (kids : list node) : node :=
  Tag (lit name) (List.map (fun kv => (lit kv.1, lit kv.2)) attrs)
      (List.map lit <$> cls) kids.

(** [<nav><h1>Menu</h1></nav>
     <div class="page-header"><h2>Banner</h2></div>
     <div class="content"><h1> Real </h1><a href="/x">x</a><p>body  text</p></div>] *)
Definition page_with_noise : soup :=
  [tag "nav" [] None [tag "h1" [] None [Text (lit "Menu")]];
   tag "div" [] (Some ["page-header"]) [tag "h2" [] None [Text (lit "Banner")]];
   tag "div" [] (Some ["content"])
     [tag "h1" [] None [Text (lit " Real ")];
      tag "a" [("href", "/x")] None [Text (lit "x")];
      tag "p" [] None [Text (lit "body  text")]]].

(** [<title></title><meta property="og:title" content="Fallback">] *)
Definition page_with_empty_title : soup :=
  [tag "title" [] None [];
   tag "meta" [("property", "og:title"); ("content", "Fallback")] None []].

(** Stand-ins for the URL library in the sample calls below.  They read
    URLs of the plain form [scheme://authority/path] only and are no
    model of [urllib]; the properties quantify over every [world]. *)
Fixpoint up_to_delimiter (s : str) : str :=
  match s with
  | [] => []
  | c :: s' =>
      if ((c =? 47) || (c =? 63) || (c =? 35))%N then [] else c :: up_to_delimiter s'
  end.

Fixpoint sample_authority (s : str) : str :=
  match s with
  | [] => []
  | _ :: s' =>
      if startswith (lit "//") s then up_to_delimiter (tl s') else sample_authority s'
  end.

Definition sample_netloc (url : str) : option str :=
  let a := sample_authority url in
  if xorb (existsb (N.eqb 91) a) (existsb (N.eqb 93) a) then None else Some a.

Fixpoint sample_origin (s : str) : str :=
  match s with
  | [] => []
  | c :: s' =>
      if startswith (lit "//") s
      then lit "//" ++ up_to_delimiter (tl s')
      else c :: sample_origin s'
  end.

Definition sample_urljoin (base href : str) : result str :=
  match sample_netloc href with
  | None => Raise (OtherException (lit "Invalid IPv6 URL"))
  | Some _ =>
      if startswith_any URLScraper.absolute_prefixes href then Ok href
      else Ok (sample_origin base ++ href)
  end.

Definition sample_world (response : result bytes) (document : result soup) : world :=
  {| http_get := fun _ => response;
     html_parser := fun _ => document;
     urljoin := sample_urljoin;
     urlparse_netloc := sample_netloc;
     elapsed := 12;
     utcnow := lit "2024-05-01T10:00:00" |}.

Definition small_config : Config :=
  {| REQUEST_TIMEOUT := 10; MAX_CONTENT_LENGTH := 4 |}.

Definition body (n : nat) : bytes := repeat Byte.x20 n.

(** [<header><title>T</title></header><h1>H</h1>] *)
Definition page_with_title_in_header : soup :=
  [tag "header" [] None [tag "title" [] None [Text (lit "T")]];
   tag "h1" [] None [Text (lit "H")]].

(** [<a href="/ok">fine</a><a href="http://[bad">broken</a>] *)
Definition page_with_bad_href : soup :=
  [tag "a" [("href", "/ok")] None [Text (lit "fine")];
   tag "a" [("href", "http://[bad")] None [Text (lit "broken")]].

(** [<p> One.  Two! Three? Four </p>] *)
Definition page_with_sentences : soup :=
  [tag "p" [] None [Text (lit " One.  Two! Three? Four ")]].

(** [<a href="#top">up</a><a href="mailto:a@b.c">mail</a>
     <a href="https://other.org/p.pdf" class="ext big">paper</a><a>none</a>] *)
Definition page_with_links : soup :=
  [tag "a" [("href", "#top")] None [Text (lit "up")];
   tag "a" [("href", "mailto:a@b.c")] None [Text (lit "mail")];
   tag "a" [("href", "https://other.org/p.pdf")] (Some ["ext"; "big"])
     [Text (lit "paper")];
   tag "a" [] None [Text (lit "none")]].

(* ===================================================================== *)
(** * Properties *)
(* ===================================================================== *)

(** ** Strings *)

Example splitlines_example :
  splitlines (lit "ab" ++ [10%N] ++ [13%N; 10%N] ++ lit "c" ++ [10%N])
  = [lit "ab"; []; lit "c"].
Proof. reflexivity. Qed.

Example split_example :
  split (lit "  ") (lit "a   b    c") = [lit "a"; lit " b"; []; lit "c"].
Proof. reflexivity. Qed.

Example split_ws_example : split_ws (lit "  a  b c ") = [lit "a"; lit "b"; lit "c"].
Proof. reflexivity. Qed.

Example strip_example : strip ([9%N] ++ lit " a b  " ++ [10%N]) = lit "a b".
Proof. reflexivity. Qed.

Example sub_ws_example : sub_ws (lit " a " ++ [9%N; 10%N] ++ lit "b") = lit " a b".
Proof. reflexivity. Qed.

Example of_int_example :
  of_int 1000000 = lit "1000000" /\ of_int (-3) = lit "-3" /\ of_int 0 = lit "0".
Proof. vm_compute. repeat split. Qed.

Example clean_text_example :
  TextScraper._clean_text (lit "  Hello   world " ++ [10%N; 9%N] ++ lit "next  line ")
  = lit "Hello world next line".
Proof. vm_compute. reflexivity. Qed.

Section StringFacts.

Implicit Types (c : char) (s t p : str).

Lemma char_eqb_eq a b : char_eqb a b = true <-> a = b.
Proof. unfold char_eqb. apply N.eqb_eq. Qed.

Lemma eqb_eq s t : PyStr.eqb s t = true <-> s = t.
Proof.
  revert t. induction s as [|a s IH]; intros [|b t]; simpl; try (split; congruence).
  rewrite andb_true_iff, char_eqb_eq, IH. split; [intros [-> ->]|intros [= -> ->]]; auto.
Qed.

Lemma eqb_refl s : PyStr.eqb s s = true.
Proof. by apply eqb_eq. Qed.

Lemma linebreak_isspace c : is_linebreak c = true -> isspace c = true.
Proof.
  unfold is_linebreak. intros H. rewrite !orb_true_iff, !N.eqb_eq in H.
  repeat match goal with H : _ \/ _ |- _ => destruct H end; subst; reflexivity.
Qed.

Lemma linebreak_not_space c : is_linebreak c = true -> c <> space.
Proof. intros H ->. discriminate H. Qed.

Lemma isspace_space : isspace space = true.
Proof. reflexivity. Qed.

(** *** [lstrip] and [rstrip] *)

Lemma lstrip_spaced b s : spaced b s = true -> spaced true (lstrip s) = true.
Proof.
  revert b. induction s as [|c s IH]; intros b; simpl; [done|].
  destruct (isspace c) eqn:Hc.
  - rewrite !andb_true_iff. intros [_ H]. by apply (IH true).
  - intros H. simpl. by rewrite Hc.
Qed.

Lemma lstrip_id s : spaced true s = true -> lstrip s = s.
Proof.
  destruct s as [|c s]; simpl; [done|].
  destruct (isspace c); [|done]. rewrite andb_false_r. discriminate.
Qed.

Lemma rstrip_cons c s :
  rstrip (c :: s) = if nonempty (rstrip s) || negb (isspace c) then c :: rstrip s else [].
Proof. simpl. destruct (rstrip s); simpl; [|done]. by destruct (isspace c). Qed.

Lemma spaced_weaken b s : spaced b s = true -> spaced false s = true.
Proof.
  destruct s as [|c s]; simpl; [done|]. destruct (isspace c); [|done].
  rewrite !andb_true_iff. intros [[-> _] ->]. done.
Qed.

Lemma rstrip_spaced b s : spaced b s = true -> spaced b (rstrip s) = true.
Proof.
  revert b. induction s as [|c s IH]; intros b; [done|].
  rewrite rstrip_cons. intros H.
  destruct (nonempty (rstrip s) || negb (isspace c)); [|done].
  simpl in *. destruct (isspace c).
  - rewrite !andb_true_iff in *. destruct H as [H1 H2]. split; [done|]. by apply IH.
  - by apply IH.
Qed.

Lemma rstrip_ends s : ends_in_space (rstrip s) = false.
Proof.
  unfold ends_in_space. induction s as [|c s IH]; [done|].
  rewrite rstrip_cons. destruct (rstrip s) as [|d r] eqn:Hr; simpl.
  - by destruct (isspace c) eqn:Hc; simpl; rewrite ?Hc.
  - exact IH.
Qed.

Lemma rstrip_id s : ends_in_space s = false -> rstrip s = s.
Proof.
  unfold ends_in_space. induction s as [|c s IH]; [done|].
  rewrite rstrip_cons. destruct s as [|d s].
  - simpl. intros ->. done.
  - intros H. rewrite IH by exact H. done.
Qed.

Lemma strip_tidy b s : spaced b s = true -> tidy (strip s) = true.
Proof.
  intros H. unfold tidy, strip. rewrite rstrip_ends.
  rewrite (rstrip_spaced true); [done|]. by apply (lstrip_spaced b).
Qed.

Lemma strip_id s : tidy s = true -> strip s = s.
Proof.
  unfold tidy, strip. rewrite andb_true_iff, negb_true_iff. intros [H1 H2].
  rewrite lstrip_id by done. by apply rstrip_id.
Qed.

(** *** [sub_ws] *)

Lemma sub_ws_from_spaced b s : spaced b (sub_ws_from b s) = true.
Proof.
  revert b. induction s as [|c s IH]; intros b; simpl; [done|].
  destruct (isspace c) eqn:Hc.
  - destruct b; [apply IH|]. simpl. rewrite IH. done.
  - simpl. rewrite Hc. apply IH.
Qed.

Lemma sub_ws_from_id b b' s :
  (b' = true -> b = true) -> spaced b s = true -> sub_ws_from b' s = s.
Proof.
  revert b b'. induction s as [|c s IH]; intros b b' Hb; simpl; [done|].
  destruct (isspace c) eqn:Hc.
  - rewrite !andb_true_iff, negb_true_iff, N.eqb_eq. intros [[-> ->] H].
    destruct b'; [by specialize (Hb eq_refl)|].
    f_equal. by apply (IH true).
  - intros H. f_equal. by apply (IH false).
Qed.

Lemma sub_ws_id s : spaced true s = true -> sub_ws s = s.
Proof. intros H. by apply (sub_ws_from_id true). Qed.

(** *** [splitlines] and [split] on text without separators *)

Lemma spaced_no_linebreak b s :
  spaced b s = true -> forallb (fun c => negb (is_linebreak c)) s = true.
Proof.
  revert b. induction s as [|c s IH]; intros b; simpl; [done|].
  destruct (is_linebreak c) eqn:Hl.
  - rewrite (linebreak_isspace _ Hl). rewrite !andb_true_iff, N.eqb_eq.
    intros [[-> _] _]. discriminate Hl.
  - simpl. destruct (isspace c).
    + rewrite !andb_true_iff. intros [_ H]. by apply (IH true).
    + by apply IH.
Qed.

Lemma splitlines_from_plain cur s :
  forallb (fun c => negb (is_linebreak c)) s = true ->
  splitlines_from cur s =
    match rev cur ++ s with [] => [] | l => [l] end.
Proof.
  revert cur. induction s as [|c s IH]; intros cur; simpl.
  - intros _. rewrite app_nil_r.
    destruct cur as [|a cur]; [done|]. simpl.
    destruct (rev cur ++ [a]) eqn:E; [by destruct (rev cur)|done].
  - destruct (is_linebreak c); simpl; [discriminate|]. intros H.
    rewrite IH by done. simpl. by rewrite <- app_assoc.
Qed.

Lemma splitlines_plain s :
  forallb (fun c => negb (is_linebreak c)) s = true ->
  splitlines s = match s with [] => [] | _ => [s] end.
Proof.
  intros H. unfold splitlines. rewrite splitlines_from_plain by done.
  by destruct s.
Qed.

Lemma spaced_no_double b s :
  spaced b s = true -> startswith [space; space] s = false.
Proof.
  destruct s as [|c [|d s]]; cbn [startswith]; try done.
  - intros _. apply andb_false_r.
  - unfold char_eqb.
    destruct (N.eqb_spec space c) as [<-|]; [|done].
    destruct (N.eqb_spec space d) as [<-|]; [|done]. simpl.
    rewrite !andb_false_r. destruct b; simpl; discriminate.
Qed.

Lemma spaced_tail b c s : spaced b (c :: s) = true -> spaced (isspace c) s = true.
Proof.
  simpl. destruct (isspace c); [|done]. rewrite !andb_true_iff. by intros [_ H].
Qed.

Lemma split_from_plain b cur s :
  spaced b s = true ->
  split_from [space; space] 0 cur s = [rev cur ++ s].
Proof.
  revert b cur. induction s as [|c s IH]; intros b cur H.
  - simpl. by rewrite app_nil_r.
  - cbn [split_from]. rewrite (spaced_no_double b) by done.
    rewrite (IH (isspace c)) by (by apply (spaced_tail b)).
    simpl. by rewrite <- app_assoc.
Qed.

Lemma split_plain s : spaced true s = true -> split (lit "  ") s = [s].
Proof. intros H. unfold split. by rewrite (split_from_plain true). Qed.

End StringFacts.

(** ** Text cleaning *)

Section CleanText.

Import TextScraper.

Lemma clean_text_tidy text : tidy (_clean_text text) = true.
Proof. unfold _clean_text. apply (strip_tidy false). apply sub_ws_from_spaced. Qed.

Lemma clean_text_fixes_tidy s : tidy s = true -> _clean_text s = s.
Proof.
  intros Ht. pose proof Ht as Ht'. unfold tidy in Ht'.
  apply andb_true_iff in Ht' as [Hs He].
  unfold _clean_text. destruct s as [|c s]; [reflexivity|].
  rewrite splitlines_plain by (by apply (spaced_no_linebreak true)).
  cbn [List.map flat_map]. rewrite (strip_id _ Ht).
  rewrite split_plain by done.
  cbn [List.map]. rewrite (strip_id _ Ht). cbn [app List.filter nonempty join].
  rewrite sub_ws_id by done. by apply strip_id.
Qed.

(** C8. [_clean_text] is idempotent: cleaning a text that [_clean_text]
    returned gives that text again, whatever the first input was. *)
Theorem clean_text_idempotent (text : str) :
  TextScraper._clean_text (TextScraper._clean_text text) = TextScraper._clean_text text.
Proof. apply clean_text_fixes_tidy, clean_text_tidy. Qed.

End CleanText.

(** ** The document tree *)

Section Tree.

Lemma node_induction (P : node -> Prop) :
  (forall s, P (Text s)) ->
  (forall s, P (Comment s)) ->
  (forall name attrs cls kids, Forall P kids -> P (Tag name attrs cls kids)) ->
  forall n, P n.
Proof.
  intros HT HC HG. fix IH 1. intros [s|s|name attrs cls kids]; [apply HT|apply HC|].
  apply HG. induction kids as [|k kids IHk]; constructor; [apply IH|exact IHk].
Qed.

Lemma descendants_tag name attrs cls kids :
  descendants (Tag name attrs cls kids) = descendants_of kids.
Proof. simpl. induction kids as [|k kids IH]; simpl; [done|]. by rewrite IH. Qed.

Lemma descendants_contents n : descendants n = descendants_of (tag_contents n).
Proof. destruct n; [done..|]. apply descendants_tag. Qed.

Lemma prune_tag m name attrs cls kids :
  prune m (Tag name attrs cls kids) = Tag name attrs cls (decompose_all m kids).
Proof. simpl. f_equal. induction kids as [|k kids IH]; simpl; [done|]. by rewrite IH. Qed.

Lemma matches_prune m m' n : matches m (prune m' n) = matches m n.
Proof. by destruct n. Qed.

Lemma descendants_of_app s1 s2 :
  descendants_of (s1 ++ s2) = descendants_of s1 ++ descendants_of s2.
Proof.
  induction s1 as [|k s1 IH]; simpl; [done|]. by rewrite IH, <- app_assoc.
Qed.

(** Two removals in a row are one removal of the tags that either
    matcher names. *)
Lemma matches_either m1 m2 n : matches (either m1 m2) n = matches m1 n || matches m2 n.
Proof. by destruct n. Qed.

Lemma prune_prune m1 m2 n : prune m2 (prune m1 n) = prune (either m1 m2) n.
Proof.
  induction n as [s|s|name attrs cls kids IH] using node_induction; [done..|].
  rewrite !prune_tag. f_equal.
  induction IH as [|k kids Hk _ IHkids]; simpl; [done|].
  rewrite matches_either. destruct (matches m1 k) eqn:H1; simpl; [exact IHkids|].
  rewrite matches_prune. destruct (matches m2 k); [exact IHkids|].
  by rewrite Hk, IHkids.
Qed.

Lemma decompose_decompose m1 m2 s :
  decompose_all m2 (decompose_all m1 s) = decompose_all (either m1 m2) s.
Proof.
  induction s as [|k s IH]; simpl; [done|].
  rewrite matches_either. destruct (matches m1 k) eqn:H1; simpl; [exact IH|].
  rewrite matches_prune. destruct (matches m2 k); [exact IH|].
  by rewrite prune_prune, IH.
Qed.

Lemma prune_ext m1 m2 n :
  (forall name attrs cls, m1 name attrs cls = m2 name attrs cls) ->
  prune m1 n = prune m2 n.
Proof.
  intros E. induction n as [s|s|name attrs cls kids IH] using node_induction; [done..|].
  rewrite !prune_tag. f_equal.
  induction IH as [|k kids Hk _ IHkids]; simpl; [done|].
  replace (matches m2 k) with (matches m1 k) by (destruct k; simpl; auto).
  by rewrite Hk, IHkids.
Qed.

Lemma decompose_all_ext m1 m2 s :
  (forall name attrs cls, m1 name attrs cls = m2 name attrs cls) ->
  decompose_all m1 s = decompose_all m2 s.
Proof.
  intros E. induction s as [|k s IH]; simpl; [done|].
  replace (matches m2 k) with (matches m1 k) by (destruct k; simpl; auto).
  by rewrite (prune_ext m1 m2 k E), IH.
Qed.

(** No tag of a pruned tree matches, at any depth. *)
Lemma decompose_all_clean m s n :
  In n (descendants_of (decompose_all m s)) -> matches m n = false.
Proof.
  revert s n.
  assert (forall k n, In n (descendants (prune m k)) -> matches m n = false) as Hnode.
  { induction k as [t|t|name attrs cls kids IH] using node_induction; [done..|].
    rewrite prune_tag, descendants_tag.
    induction IH as [|k kids Hk _ IHkids]; simpl; [done|].
    destruct (matches m k) eqn:Hm; [exact IHkids|].
    intros n [<-|Hn]; [by rewrite matches_prune|].
    apply in_app_or in Hn as [Hn|Hn]; [by apply Hk|by apply IHkids]. }
  induction s as [|k s IH]; intros n; simpl; [done|].
  destruct (matches m k) eqn:Hm; [apply IH|].
  intros [<-|Hn]; [by rewrite matches_prune|].
  apply in_app_or in Hn as [Hn|Hn]; [by apply (Hnode k)|by apply IH].
Qed.

End Tree.

(** ** Noise removal and the metadata *)

Section Noise.

Import TextScraper.

Lemma existsb_named_any nms name attrs cls :
  named_any nms name attrs cls = existsb (fun nm => named nm name attrs cls) nms.
Proof. reflexivity. Qed.

(** The twelve passes of [_remove_unwanted_elements] remove the noise
    elements and nothing else. *)
Lemma remove_unwanted_is_noise_removal s :
  _remove_unwanted_elements s = decompose_all noise s.
Proof.
  unfold _remove_unwanted_elements, unwanted_selectors. cbn [fold_left].
  rewrite !decompose_decompose. apply decompose_all_ext.
  intros name attrs cls. unfold either, noise, noise_tags, noise_substrings, named_any.
  cbn [existsb].
  repeat match goal with
         | |- context [PyStr.eqb name ?l] =>
             let b := fresh "b" in generalize (PyStr.eqb name l); intros b
         | |- context [attr_contains ?a ?sub name attrs cls] =>
             let b := fresh "b" in generalize (attr_contains a sub name attrs cls); intros b
         end.
  btauto.
Qed.

Lemma outside_noise_cons k s n : outside_noise s n -> outside_noise (k :: s) n.
Proof.
  intros [s' n' Hin Hm|s' t n' Hin Hm Hn].
  - apply outside_top; [by right|done].
  - apply (outside_below _ t); [by right|done..].
Qed.

Lemma survivors_list kids :
  Forall (fun k => forall n', In n' (descendants (prune noise k)) ->
                   exists n, outside_noise (tag_contents k) n /\ n' = prune noise n) kids ->
  forall n', In n' (descendants_of (decompose_all noise kids)) ->
             exists n, outside_noise kids n /\ n' = prune noise n.
Proof.
  induction 1 as [|k kids Hk _ IH]; simpl; [done|].
  intros n'. destruct (matches noise k) eqn:Hm.
  - intros Hn. destruct (IH _ Hn) as (n & Ho & ->).
    exists n. split; [by apply outside_noise_cons|done].
  - intros [<-|Hn].
    + exists k. split; [|done]. apply outside_top; [by left|done].
    + apply in_app_or in Hn as [Hn|Hn].
      * destruct (Hk _ Hn) as (n & Ho & ->). exists n. split; [|done].
        apply (outside_below _ k); [by left|done..].
      * destruct (IH _ Hn) as (n & Ho & ->).
        exists n. split; [by apply outside_noise_cons|done].
Qed.

Lemma survivors_node k n' :
  In n' (descendants (prune noise k)) ->
  exists n, outside_noise (tag_contents k) n /\ n' = prune noise n.
Proof.
  revert n'. induction k as [t|t|name attrs cls kids IH] using node_induction; [done..|].
  intros n'. rewrite prune_tag, descendants_tag. simpl. by apply survivors_list.
Qed.

(** Every node of the document that noise removal leaves is the pruned
    form of a node that was outside all noise elements. *)
Lemma survivors s n' :
  In n' (descendants_of (decompose_all noise s)) ->
  exists n, outside_noise s n /\ n' = prune noise n.
Proof.
  apply survivors_list. apply Forall_forall. intros k _ n. apply survivors_node.
Qed.

Lemma find_all_In m s n : In n (find_all m s) <-> In n (descendants_of s) /\ matches m n = true.
Proof. unfold find_all. apply filter_In. Qed.

Lemma find_In m s n : find m s = Some n -> In n (descendants_of s) /\ matches m n = true.
Proof.
  unfold find. intros H. apply find_all_In.
  destruct (find_all m s) as [|x l]; [done|]. injection H as ->. by left.
Qed.

Lemma found_outside_noise m s n' :
  In n' (find_all m (decompose_all noise s)) ->
  exists n, outside_noise s n /\ matches m n = true /\ n' = prune noise n.
Proof.
  intros [Hd Hm]%find_all_In. destruct (survivors _ _ Hd) as (n & Ho & ->).
  exists n. by rewrite matches_prune in Hm.
Qed.

Lemma extract_headings_lookup s level texts :
  _extract_headings s !! level = Some texts ->
  In level heading_levels /\ texts = heading_texts level s.
Proof.
  unfold _extract_headings. intros H%elem_of_list_to_map_2.
  apply list_elem_of_In, in_map_iff in H as (l & [= <- <-] & Hl). done.
Qed.

(** C10. Title, meta description and headings are read from the document
    that noise removal has left.  So every heading text that is reported
    at some level is the text of a heading tag of that level that was
    outside all noise elements (no [script], [style], [nav], [header],
    [footer] or [aside] tag and no tag whose [class] or [id] has one of
    the noise substrings is the heading or is around it), and the [h1]
    that the title rule may fall back on is such a tag as well. *)
Theorem metadata_read_after_noise_removal (s : soup) :
  let d := TextScraper._extract_text_content s in
  (td_title d = TextScraper._extract_title (decompose_all noise s)
   /\ td_meta_description d = TextScraper._extract_meta_description (decompose_all noise s)
   /\ td_headings d = TextScraper._extract_headings (decompose_all noise s))
  /\ (forall level texts t,
        td_headings d !! level = Some texts -> In t texts ->
        exists h, outside_noise s h /\ matches (named level) h = true
                  /\ t = text_without_noise h)
  /\ (forall h1,
        find (named "h1") (decompose_all noise s) = Some h1 ->
        exists h, outside_noise s h /\ matches (named "h1") h = true
                  /\ get_text true (tag_contents h1) = text_without_noise h).
Proof.
  unfold _extract_text_content. cbn [td_title td_meta_description td_headings].
  rewrite remove_unwanted_is_noise_removal. split; [done|]. split.
  - intros level texts t [_ ->]%extract_headings_lookup Ht.
    unfold heading_texts in Ht. apply in_map_iff in Ht as (h' & <- & Hh').
    apply found_outside_noise in Hh' as (h & Ho & Hm & ->). by exists h.
  - intros h1 [Hd Hm]%find_In.
    destruct (survivors _ _ Hd) as (h & Ho & ->).
    exists h. by rewrite matches_prune in Hm.
Qed.

End Noise.

(** The scenario of the specification: a title and two [h1]. *)
Example title_and_headings_example :
  let d := TextScraper._extract_text_content
             [tag "title" [] None [Text (lit "Example")];
              tag "h1" [] None [Text (lit "A")];
              tag "h1" [] None [Text (lit "B")]] in
  TextScraper.td_title d = lit "Example"
  /\ TextScraper.td_headings d !! "h1" = Some [lit "A"; lit "B"]
  /\ TextScraper.td_headings d !! "h4" = Some [].
Proof. vm_compute. repeat split. Qed.

Lemma metadata_read_after_noise_removal_witness :
  exists h, outside_noise page_with_noise h /\ matches (named "h1") h = true
            /\ lit "Real" = text_without_noise h.
Proof.
  destruct (metadata_read_after_noise_removal page_with_noise) as (_ & H & _).
  apply (H "h1" [lit "Real"] (lit "Real")).
  - vm_compute. reflexivity.
  - left. reflexivity.
Defined.

(** ** The title *)

Section Title.

Import TextScraper.

(** C4, as stated, fails: a document with an empty [<title>] and an
    [og:title] gets the empty title, not the [og:title]. *)
Lemma title_first_nonempty_fails :
  TextScraper._extract_title page_with_empty_title = []
  /\ title_by_first_nonempty page_with_empty_title = lit "Fallback"
  /\ TextScraper._extract_title page_with_empty_title
     <> title_by_first_nonempty page_with_empty_title
  /\ decompose_all noise page_with_empty_title = page_with_empty_title
  /\ td_title (TextScraper._extract_text_content page_with_empty_title) = []
  /\ td_title (TextScraper._extract_text_content page_with_empty_title)
     <> title_by_first_nonempty page_with_empty_title.
Proof. vm_compute. repeat split; discriminate. Qed.

(** [_extract_title] on the tree that it is given. *)
Lemma extract_title_first_present (s : soup) :
  _extract_title s = title_by_first_present s
  /\ (_extract_title s = [] \/ _extract_title s = title_by_first_nonempty s).
Proof.
  unfold _extract_title, title_by_first_present, title_by_first_nonempty.
  destruct (find (named "title") s) as [t|]; simpl.
  { split; [done|]. destruct (get_text true (tag_contents t)); [by left|by right]. }
  destruct (find (meta_with "property" "og:title") s) as [m|]; simpl.
  { split; [done|].
    destruct (get_attr (lit "content") (tag_attrs m)) as [[|c v]|]; simpl;
      [by left|by right|by left]. }
  destruct (find (named "h1") s) as [h|]; simpl; [|by split; [|left]].
  split; [done|]. destruct (get_text true (tag_contents h)); [by left|by right].
Qed.

(** C4, amended. The title of an extraction is read from the document
    that noise removal has left, and it is the value of the first
    candidate element that this document has: the stripped text of its
    first [<title>], else the [content] of its first [meta] with
    property [og:title] (empty without that attribute), else the
    stripped text of its first [<h1>], else the empty string.  The chain
    moves on when an element is absent, not when its value is empty; so
    the title is empty or it is the first non-empty candidate.  The same
    holds of [_extract_title] on any tree that it is given. *)
Theorem title_is_first_present_candidate (s : soup) :
  let d := TextScraper._extract_text_content s in
  let kept := decompose_all noise s in
  td_title d = title_by_first_present kept
  /\ (td_title d = [] \/ td_title d = title_by_first_nonempty kept)
  /\ (forall tree : soup,
        TextScraper._extract_title tree = title_by_first_present tree
        /\ (TextScraper._extract_title tree = []
            \/ TextScraper._extract_title tree = title_by_first_nonempty tree)).
Proof.
  cbn zeta. unfold _extract_text_content. cbn [td_title].
  rewrite remove_unwanted_is_noise_removal.
  destruct (extract_title_first_present (decompose_all noise s)) as [H1 H2].
  split; [done|]. split; [done|]. apply extract_title_first_present.
Qed.

(** A [<title>] inside a noise element is no candidate: the title comes
    from what is left. *)
Example title_inside_noise_example :
  td_title (TextScraper._extract_text_content page_with_title_in_header) = lit "H"
  /\ TextScraper._extract_title page_with_title_in_header = lit "T".
Proof. vm_compute. repeat split. Qed.

End Title.

(** ** Links *)

Section Links.

Import URLScraper.

(** C5. The link type of an [href] is the type of the first rule of the
    precedence table that holds for it ([mailto:], [tel:], [ftp:], [#],
    [javascript:], one of the suffixes [.pdf], [.doc], [.docx], [.xls],
    [.xlsx], [.zip], [.rar] at the end of the lower-cased [href]) and
    [web] when none holds; so ["mailto:#fragment"] is an [email] link,
    and a path that ends in any of the listed suffixes, in small or
    capital letters, is a [file] link. *)
Theorem link_type_first_match :
  (forall href : str, URLScraper._get_link_type href = first_match link_rules web href)
  /\ URLScraper._get_link_type (lit "mailto:#fragment") = email
  /\ Forall (fun suffix =>
               URLScraper._get_link_type (lit "/docs/report" ++ lit suffix) = file)
       [".pdf"; ".doc"; ".docx"; ".xls"; ".xlsx"; ".zip"; ".rar";
        ".PDF"; ".Doc"; ".DOCX"; ".Xls"; ".XLSX"; ".ZIP"; ".RaR"].
Proof.
  split; [|split; [reflexivity|]].
  - intros href. unfold _get_link_type, link_rules. cbn [first_match].
    change listed_file_suffixes with file_extensions.
    repeat match goal with |- context [if ?b then _ else _] => destruct b; [reflexivity|] end.
    reflexivity.
  - repeat constructor.
Qed.

Lemma link_type_examples :
  _get_link_type (lit "/docs/report.pdf") = file
  /\ _get_link_type (lit "/docs/REPORT.Pdf") = file
  /\ _get_link_type (lit "#top") = anchor
  /\ _get_link_type (lit "ftp://host/a.zip") = ftp
  /\ _get_link_type (lit "tel:+123") = phone
  /\ _get_link_type (lit "javascript:void(0)") = javascript
  /\ _get_link_type (lit "/docs/report.pdf?x=1") = web.
Proof. vm_compute. repeat split. Qed.




Lemma link_obj_Ok w base_url i a l :
  link_obj w base_url i a = Ok l ->
  link_id l = (Z.of_nat i + 1)%Z
  /\ link_original_href l = href_of a
  /\ link_type l = _get_link_type (href_of a)
  /\ link_is_relative l = negb (startswith_any absolute_prefixes (href_of a))
  /\ urljoin w base_url (href_of a) = Ok (link_url l)
  /\ link_is_external l = _is_external_link w (link_url l) base_url.
Proof.
  unfold link_obj, href_of.
  destruct (urljoin w base_url (default [] (get_attr (lit "href") (tag_attrs a))));
    [|done].
  by intros [= <-].
Qed.

(** What the loop returns when no [urljoin] raises. *)
Lemma extract_from_Ok w base_url i anchors links :
  extract_from w base_url i anchors = Ok links ->
  Forall2 (fun a l => exists k, link_obj w base_url k a = Ok l) anchors links
  /\ List.map link_id links
     = List.map (fun k => Z.of_nat k + 1)%Z (seq i (length anchors)).
Proof.
  revert i links. induction anchors as [|a anchors IH]; intros i links; simpl.
  - intros [= <-]. by split; [constructor|].
  - destruct (link_obj w base_url i a) as [l|e] eqn:El; [|done].
    destruct (extract_from w base_url (S i) anchors) as [ls|e] eqn:Els; [|done].
    intros [= <-]. destruct (IH _ _ Els) as [H1 H2]. split.
    + constructor; [by exists i|done].
    + simpl. rewrite H2. f_equal. by apply link_obj_Ok in El as (-> & _).
Qed.

(** The loop raises exactly when [urljoin] raises for the [href] of
    some anchor. *)
Lemma extract_from_Raise w base_url i anchors :
  (exists e, extract_from w base_url i anchors = Raise e)
  <-> Exists (fun a => exists e, urljoin w base_url (href_of a) = Raise e) anchors.
Proof.
  revert i. induction anchors as [|a anchors IH]; intros i; simpl.
  - split; [by intros [e ?]|by intros ?%Exists_nil].
  - rewrite Exists_cons, <- (IH (S i)). unfold link_obj. fold (href_of a).
    destruct (urljoin w base_url (href_of a)) as [full|e].
    + destruct (extract_from w base_url (S i) anchors) as [ls|e'].
      * split; [by intros [e ?]|]. by intros [[e ?]|[e ?]].
      * split; [intros _; right; by exists e'|intros _; by exists e'].
    + split; [intros _; left; by exists e|intros _; by exists e].
Qed.

(** C7. When the extraction returns its list, the links are in document
    order, one for each anchor that has an [href], and the k-th of them
    carries the id k: the ids are 1, 2, ..., n. *)
Theorem link_ids_contiguous (w : world) (s : soup) (base_url : str)
    (links : list link) :
  URLScraper._extract_links w s base_url = Ok links ->
  let anchors := List.filter (matches anchor_with_href) (descendants_of s) in
  List.map link_id links
  = List.map (fun k => Z.of_nat k + 1)%Z (seq 0 (length links))
  /\ length links = length anchors
  /\ List.map link_original_href links
     = List.map (fun a => default [] (get_attr (lit "href") (tag_attrs a))) anchors.
Proof.
  unfold _extract_links, find_all. cbn zeta. intros [H1 H2]%extract_from_Ok.
  assert (length links = length (List.filter (matches anchor_with_href) (descendants_of s)))
    as Hlen by (symmetry; by apply Forall2_length in H1).
  split; [by rewrite Hlen|]. split; [done|].
  clear H2 Hlen. induction H1 as [|a l anchors ls [k Hk] _ IH]; simpl; [done|].
  rewrite IH. f_equal. by apply link_obj_Ok in Hk as (_ & -> & _).
Qed.

Lemma link_ids_contiguous_witness :
  List.map link_id
    [ {| link_id := 1; link_url := lit "https://site.com/x";
         link_original_href := lit "/x"; link_text := lit "x"; link_title := [];
         link_class := []; link_is_relative := true; link_is_external := false;
         link_type := web |} ]
  = List.map (fun k => Z.of_nat k + 1)%Z (seq 0 1).
Proof.
  refine (proj1 (link_ids_contiguous (sample_world (Ok []) (Ok [])) page_with_noise
                   (lit "https://site.com/x") _ _)).
  reflexivity.
Defined.

Lemma extract_links_example :
  _extract_links (sample_world (Ok []) (Ok [])) page_with_noise (lit "https://site.com/x")
  = Ok [ {| link_id := 1;
            link_url := lit "https://site.com/x";
            link_original_href := lit "/x";
            link_text := lit "x";
            link_title := [];
            link_class := [];
            link_is_relative := true;
            link_is_external := false;
            link_type := web |} ].
Proof. vm_compute. reflexivity. Qed.

(** One [href] that [urljoin] cannot parse ends the extraction: the
    scrape answers with the error envelope and no link at all. *)
Lemma bad_href_example :
  let w := sample_world (Ok (body 3)) (Ok page_with_bad_href) in
  _extract_links w page_with_bad_href (lit "https://site.com/x")
  = Raise (OtherException (lit "Invalid IPv6 URL"))
  /\ scrape w small_config (lit "site.com/x") !! "error"
     = Some (VStr (lit "Unexpected error: Invalid IPv6 URL"))
  /\ scrape w small_config (lit "site.com/x") !! "urls" = None.
Proof. vm_compute. repeat split. Qed.

End Links.

(** ** URL validation *)

Section Validation.

Lemma lstrip_all_space s : forallb isspace s = true -> lstrip s = [].
Proof.
  induction s as [|c s IH]; simpl; [done|].
  rewrite andb_true_iff. intros [-> H]. by apply IH.
Qed.

Lemma strip_all_space s : forallb isspace s = true -> strip s = [].
Proof. intros H. unfold strip. by rewrite lstrip_all_space. Qed.

(** What [validate_url] does with any input: the empty string is
    refused; any other input is stripped and gets [https://] in front
    unless it has an [http://] or [https://] prefix already. *)
Lemma validate_url_cases (url : str) :
  validate_url url =
    match url with
    | [] => Invalid (lit "URL cannot be empty")
    | _ => if startswith_any http_prefixes (strip url)
           then Valid (strip url)
           else Valid (lit "https://" ++ strip url)
    end.
Proof.
  unfold validate_url. destruct url as [|c url]; [done|]. cbn [nonempty negb].
  by destruct (startswith_any http_prefixes (strip (c :: url))).
Qed.

(** C3, where the code departs from it. [validate_url] tests for the
    empty string before it strips, so an input of whitespace only is
    not refused: it becomes the URL ["https://"].  The check in front
    of the routes, [validate_url_request], strips first and refuses the
    same input. *)
Theorem validate_url_accepts_whitespace (url : str) :
  url <> [] -> forallb isspace url = true ->
  validate_url url = Valid (lit "https://")
  /\ validate_url_request (Some url) = Invalid (lit "URL cannot be empty").
Proof.
  intros Hne Hws. rewrite validate_url_cases. unfold validate_url_request.
  rewrite (strip_all_space _ Hws). by destruct url.
Qed.

Lemma validate_url_accepts_whitespace_witness :
  validate_url (lit "   ") = Valid (lit "https://")
  /\ validate_url_request (Some (lit "   ")) = Invalid (lit "URL cannot be empty").
Proof. apply validate_url_accepts_whitespace; [discriminate|reflexivity]. Defined.

(** The parts of C3 that hold: the empty string is refused, and an input
    with something other than whitespace in it is never refused. *)
Lemma validate_url_examples :
  validate_url [] = Invalid (lit "URL cannot be empty")
  /\ validate_url (lit "  example.com/a ") = Valid (lit "https://example.com/a")
  /\ validate_url (lit "http://example.com") = Valid (lit "http://example.com")
  /\ validate_url (lit "HTTP://example.com") = Valid (lit "https://HTTP://example.com").
Proof. vm_compute. repeat split. Qed.

End Validation.

(** ** Response envelopes *)

Section Envelopes.

Lemma create_error_response_lookup w msg f :
  create_error_response w msg !! f =
    if decide (f = "success") then Some (VBool false)
    else if decide (f = "processing_time") then Some (VSeconds (elapsed w))
    else if decide (f = "timestamp") then Some (VStr (utcnow w))
    else if decide (f = "error") then Some (VStr msg)
    else None.
Proof.
  unfold create_error_response. cbn [list_to_map foldr uncurry fst snd].
  repeat (case_decide; [subst f; by simplify_map_eq|
                        rewrite lookup_insert_ne by done]).
  apply lookup_empty.
Qed.

Lemma handle_request_errors_lookup w cfg e f :
  In f (links_payload ++ text_payload) -> handle_request_errors w cfg e !! f = None.
Proof.
  unfold handle_request_errors. rewrite create_error_response_lookup.
  simpl. intros H. repeat (destruct H as [<-|H]; [by vm_compute|]). done.
Qed.

Lemma failure_shape_no_payload payload e f :
  In f payload -> e !! f = None -> failure_shape payload e = false.
Proof.
  intros Hin Hf. unfold failure_shape.
  assert (forallb (fun f => match e !! f with Some v => is_zero v | None => false end)
            payload = false) as ->; [|apply andb_false_r].
  apply not_true_is_false. rewrite forallb_forall. intros H.
  specialize (H f Hin). by rewrite Hf in H.
Qed.

(** The failures that the scrapers answer themselves (a refused URL, and
    in the text scraper a body over the limit) have the full shape. *)
Lemma empty_responses_have_failure_shape w msg :
  msg <> [] ->
  failure_shape links_payload (URLScraper._create_empty_response w msg) = true
  /\ failure_shape text_payload (TextScraper._create_empty_response w msg) = true
  /\ (forall links, dom (URLScraper._create_empty_response w msg)
                    = dom (URLScraper.success_response w links))
  /\ (forall d, dom (TextScraper._create_empty_response w msg)
                = dom (TextScraper.success_response w d)).
Proof.
  intros Hmsg. destruct msg as [|c msg]; [done|].
  split; [by vm_compute|]. split; [by vm_compute|].
  split; intros; unfold URLScraper._create_empty_response, URLScraper.success_response,
    TextScraper._create_empty_response, TextScraper.success_response;
    cbn [list_to_map foldr uncurry fst snd]; by rewrite !dom_insert_L.
Qed.

(** C1, where the code departs from it. When the request or the parser
    raises (timeout, connection or status failure, any other error), the
    scrapers answer with the envelope of [create_error_response], which
    has [success], [processing_time], [timestamp] and [error] only: no
    payload field is there, for links or for text. *)
Theorem raised_error_envelope_lacks_payload (w : world) (cfg : Config)
    (url u : str) (e : exn) :
  validate_url url = Valid u ->
  http_get w u = Raise e ->
  (forall f, In f links_payload -> URLScraper.scrape w cfg url !! f = None)
  /\ (forall f, In f text_payload -> TextScraper.scrape w cfg url !! f = None)
  /\ failure_shape links_payload (URLScraper.scrape w cfg url) = false
  /\ failure_shape text_payload (TextScraper.scrape w cfg url) = false
  /\ dom (URLScraper.scrape w cfg url)
     = ({["success"; "processing_time"; "timestamp"; "error"]} : gset string).
Proof.
  intros Hv Hg.
  assert (URLScraper.scrape w cfg url = handle_request_errors w cfg e) as ->.
  { unfold URLScraper.scrape, get_page_response. by rewrite Hv, Hg. }
  assert (TextScraper.scrape w cfg url = handle_request_errors w cfg e) as ->.
  { unfold TextScraper.scrape, get_page_response. by rewrite Hv, Hg. }
  assert (forall f, In f (links_payload ++ text_payload) ->
                    handle_request_errors w cfg e !! f = None) as Hnone
    by (intros f; apply handle_request_errors_lookup).
  split; [|split; [|split; [|split]]].
  - intros f Hf. apply Hnone, in_or_app. by left.
  - intros f Hf. apply Hnone, in_or_app. by right.
  - apply (failure_shape_no_payload _ _ "urls"); [by left|]. apply Hnone. by left.
  - apply (failure_shape_no_payload _ _ "text"); [by left|]. apply Hnone.
    apply in_or_app. right. by left.
  - unfold handle_request_errors, create_error_response.
    cbn [list_to_map foldr uncurry fst snd]. rewrite !dom_insert_L, dom_empty_L.
    set_solver.
Qed.

Lemma raised_error_envelope_lacks_payload_witness :
  URLScraper.scrape (sample_world (Raise (TimeoutError [])) (Ok []))
    default_config (lit "example.com") !! "urls" = None.
Proof.
  destruct (raised_error_envelope_lacks_payload
              (sample_world (Raise (TimeoutError [])) (Ok []))
              default_config (lit "example.com") (lit "https://example.com")
              (TimeoutError [])) as [H _]; [reflexivity|reflexivity|].
  apply H. left. reflexivity.
Defined.

(** The same loss when the parser raises. *)
Lemma parser_error_envelope w cfg url u content e :
  validate_url url = Valid u ->
  http_get w u = Ok content ->
  html_parser w content = Raise e ->
  URLScraper.scrape w cfg url = handle_request_errors w cfg e.
Proof.
  intros Hv Hg Hp. unfold URLScraper.scrape, get_page_response.
  by rewrite Hv, Hg, Hp.
Qed.

Lemma error_messages_nonempty w cfg e :
  exists msg, handle_request_errors w cfg e !! "error" = Some (VStr msg) /\ msg <> [].
Proof.
  unfold handle_request_errors. rewrite create_error_response_lookup.
  destruct e; eexists; (split; [reflexivity|discriminate]).
Qed.

(** *** The content limit *)

Lemma text_empty_response_success w msg :
  TextScraper._create_empty_response w msg !! "success" = Some (VBool false).
Proof. unfold TextScraper._create_empty_response. by simplify_map_eq. Qed.

Lemma handle_request_errors_success w cfg e :
  handle_request_errors w cfg e !! "success" = Some (VBool false).
Proof. unfold handle_request_errors. by rewrite create_error_response_lookup. Qed.

(** The text scraper keeps the limit: a body over it is refused, a body
    of exactly the limit goes on to the parser. *)
Lemma text_scraper_content_limit w cfg url u content :
  validate_url url = Valid u ->
  http_get w u = Ok content ->
  ((Z.of_nat (length content) > MAX_CONTENT_LENGTH cfg)%Z ->
   TextScraper.scrape w cfg url !! "success" = Some (VBool false))
  /\ (forall s, (Z.of_nat (length content) <= MAX_CONTENT_LENGTH cfg)%Z ->
                html_parser w content = Ok s ->
                TextScraper.scrape w cfg url
                = TextScraper.success_response w (TextScraper._extract_text_content s)).
Proof.
  intros Hv Hg. unfold TextScraper.scrape, get_page_response. rewrite Hv, Hg.
  split.
  - intros H. apply Z.gt_lt, Z.gtb_lt in H. rewrite H. apply text_empty_response_success.
  - intros s H Hp. destruct (Z.gtb_spec (Z.of_nat (length content)) (MAX_CONTENT_LENGTH cfg));
      [lia|]. by rewrite Hp.
Qed.

(** C2, where the code departs from it. The link scraper never compares
    the body with [MAX_CONTENT_LENGTH]: a body over the limit is parsed,
    and when the extraction returns its links they are returned with
    [success] true, while the text scraper refuses the same body as too
    large.  The answer of the link scraper is the same under every
    limit. *)
Theorem link_scraper_ignores_content_limit (w : world) (cfg : Config)
    (url u : str) (content : bytes) (s : soup) (links : list link) :
  validate_url url = Valid u ->
  http_get w u = Ok content ->
  html_parser w content = Ok s ->
  URLScraper._extract_links w s u = Ok links ->
  (Z.of_nat (length content) > MAX_CONTENT_LENGTH cfg)%Z ->
  URLScraper.scrape w cfg url = URLScraper.success_response w links
  /\ URLScraper.scrape w cfg url !! "success" = Some (VBool true)
  /\ TextScraper.scrape w cfg url
     = TextScraper._create_empty_response w
         (lit "Content too large: " ++ of_int (Z.of_nat (length content))
          ++ lit " bytes (max: " ++ of_int (MAX_CONTENT_LENGTH cfg) ++ lit ")")
  /\ (forall limit,
        URLScraper.scrape w
          {| REQUEST_TIMEOUT := REQUEST_TIMEOUT cfg; MAX_CONTENT_LENGTH := limit |} url
        = URLScraper.scrape w cfg url).
Proof.
  intros Hv Hg Hp He Hbig.
  assert (URLScraper.scrape w cfg url = URLScraper.success_response w links) as Hs.
  { unfold URLScraper.scrape, get_page_response. by rewrite Hv, Hg, Hp, He. }
  split; [done|]. split; [|split].
  - rewrite Hs. unfold URLScraper.success_response. by simplify_map_eq.
  - unfold TextScraper.scrape, get_page_response. rewrite Hv, Hg.
    apply Z.gt_lt, Z.gtb_lt in Hbig. by rewrite Hbig.
  - intros limit. unfold URLScraper.scrape, get_page_response.
    by rewrite Hv, Hg, Hp, He.
Qed.

Lemma link_scraper_ignores_content_limit_witness :
  URLScraper.scrape (sample_world (Ok (body 5)) (Ok page_with_noise))
    small_config (lit "site.com/x") !! "success" = Some (VBool true).
Proof.
  destruct (link_scraper_ignores_content_limit
              (sample_world (Ok (body 5)) (Ok page_with_noise))
              small_config (lit "site.com/x") (lit "https://site.com/x")
              (body 5) page_with_noise
              [ {| link_id := 1; link_url := lit "https://site.com/x";
                   link_original_href := lit "/x"; link_text := lit "x";
                   link_title := []; link_class := []; link_is_relative := true;
                   link_is_external := false; link_type := web |} ])
    as (_ & H & _);
    [reflexivity|reflexivity|reflexivity|reflexivity|reflexivity|].
  exact H.
Defined.

(** The limit plays no part in any answer of the link scraper, also
    when the request, the parser or the extraction raises. *)
Lemma link_scraper_never_reads_limit w cfg url limit :
  URLScraper.scrape w
    {| REQUEST_TIMEOUT := REQUEST_TIMEOUT cfg; MAX_CONTENT_LENGTH := limit |} url
  = URLScraper.scrape w cfg url.
Proof.
  unfold URLScraper.scrape. destruct (validate_url url) as [u|err]; [|done].
  destruct (get_page_response w u) as [content|e]; [|done].
  destruct (html_parser w content) as [s|e]; [|done].
  by destruct (URLScraper._extract_links w s u).
Qed.

Lemma content_limit_examples :
  let w n := sample_world (Ok (body n)) (Ok page_with_noise) in
  TextScraper.scrape (w 4%nat) small_config (lit "site.com/x") !! "success"
  = Some (VBool true)
  /\ TextScraper.scrape (w 5%nat) small_config (lit "site.com/x") !! "error"
     = Some (VStr (lit "Content too large: 5 bytes (max: 4)"))
  /\ URLScraper.scrape (w 5%nat) small_config (lit "site.com/x") !! "count"
     = Some (VInt 1).
Proof. vm_compute. repeat split. Qed.

(** *** Counts of the text *)

(** C9. In the envelope of a successful text extraction, [word_count]
    is the number of whitespace-delimited tokens of the [text] field
    (so 0 for the empty text) and [character_count] is its length. *)
Theorem text_counts_match_text (w : world) (cfg : Config) (url : str) :
  let e := TextScraper.scrape w cfg url in
  e !! "success" = Some (VBool true) ->
  exists t,
    e !! "text" = Some (VStr t)
    /\ e !! "word_count" = Some (VInt (Z.of_nat (length (split_ws t))))
    /\ e !! "character_count" = Some (VInt (Z.of_nat (length t)))
    /\ (t = [] -> e !! "word_count" = Some (VInt 0)).
Proof.
  cbn zeta. unfold TextScraper.scrape.
  destruct (validate_url url) as [u|err];
    [|by rewrite text_empty_response_success].
  destruct (get_page_response w u) as [content|ex];
    [|by rewrite handle_request_errors_success].
  destruct (Z.of_nat (length content) >? MAX_CONTENT_LENGTH cfg)%Z;
    [by rewrite text_empty_response_success|].
  destruct (html_parser w content) as [s|ex];
    [|by rewrite handle_request_errors_success].
  intros _. unfold TextScraper.success_response, TextScraper._extract_text_content.
  cbn [TextScraper.td_text TextScraper.td_word_count TextScraper.td_character_count].
  eexists. split; [by simplify_map_eq|]. split; [by simplify_map_eq|].
  split; [by simplify_map_eq|]. intros E. simplify_map_eq. by rewrite E.
Qed.

Lemma text_counts_match_text_witness :
  exists t,
    TextScraper.scrape (sample_world (Ok (body 3)) (Ok page_with_noise))
      small_config (lit "site.com/x") !! "text" = Some (VStr t)
    /\ TextScraper.scrape (sample_world (Ok (body 3)) (Ok page_with_noise))
         small_config (lit "site.com/x") !! "word_count"
       = Some (VInt (Z.of_nat (length (split_ws t)))).
Proof.
  destruct (text_counts_match_text (sample_world (Ok (body 3)) (Ok page_with_noise))
              small_config (lit "site.com/x")) as (t & H1 & H2 & _);
    [reflexivity|].
  exists t. split; [exact H1|exact H2].
Defined.

Lemma text_scrape_example :
  let e := TextScraper.scrape (sample_world (Ok (body 3)) (Ok page_with_noise))
             small_config (lit "site.com/x") in
  e !! "text" = Some (VStr (lit "Real xbody text"))
  /\ e !! "word_count" = Some (VInt 3)
  /\ e !! "character_count" = Some (VInt 15)
  /\ e !! "title" = Some (VStr (lit "Real"))
  /\ e !! "headings"
     = Some (VHeadings (list_to_map
          [("h1", [lit "Real"]); ("h2", []); ("h3", []); ("h4", []);
           ("h5", []); ("h6", [])])).
Proof. vm_compute. repeat split. Qed.

End Envelopes.

(** ** Text cleaning and the words of a text *)

Section Words.

Import TextScraper.

Implicit Types (c : char) (s t cur : str).

Lemma split_ws_from_nil cur :
  split_ws_from cur [] = match cur with [] => [] | _ => [rev cur] end.
Proof. reflexivity. Qed.

(** A whitespace character cuts the text in two for [split]. *)
Lemma split_ws_from_app cur a c b :
  isspace c = true ->
  split_ws_from cur (a ++ c :: b) = split_ws_from cur a ++ split_ws b.
Proof.
  intros Hc. revert cur. induction a as [|x a IH]; intros cur; simpl.
  - rewrite Hc. by destruct cur.
  - destruct (isspace x); [|apply IH]. destruct cur; simpl; by rewrite IH.
Qed.

Lemma split_ws_app a c b :
  isspace c = true -> split_ws (a ++ c :: b) = split_ws a ++ split_ws b.
Proof. apply split_ws_from_app. Qed.

Lemma split_ws_lstrip s : split_ws (lstrip s) = split_ws s.
Proof.
  induction s as [|c s IH]; simpl; [done|].
  destruct (isspace c) eqn:Hc; [|done]. unfold split_ws at 2. simpl. by rewrite Hc.
Qed.

Lemma split_ws_from_rstrip cur s : split_ws_from cur (rstrip s) = split_ws_from cur s.
Proof.
  revert cur. induction s as [|c s IH]; intros cur; [done|].
  rewrite rstrip_cons. destruct (rstrip s) as [|d r] eqn:Hr; simpl.
  - destruct (isspace c) eqn:Hc; simpl; rewrite ?Hc.
    + specialize (IH []). simpl in IH. rewrite <- IH. by destruct cur.
    + apply (IH (c :: cur)).
  - destruct (isspace c) eqn:Hc.
    + destruct cur; by rewrite <- IH.
    + by rewrite <- IH.
Qed.

Lemma split_ws_strip s : split_ws (strip s) = split_ws s.
Proof. unfold strip, split_ws. by rewrite split_ws_from_rstrip, split_ws_lstrip. Qed.

Lemma split_ws_from_sub_ws b cur s :
  (b = true -> cur = []) ->
  split_ws_from cur (sub_ws_from b s) = split_ws_from cur s.
Proof.
  revert b cur. induction s as [|c s IH]; intros b cur Hb; simpl; [done|].
  destruct (isspace c) eqn:Hc.
  - destruct b.
    + rewrite (Hb eq_refl). by apply IH.
    + simpl. destruct cur; by rewrite (IH true []).
  - simpl. rewrite Hc. by apply IH.
Qed.

Lemma split_ws_sub_ws s : split_ws (sub_ws s) = split_ws s.
Proof. by apply split_ws_from_sub_ws. Qed.

Lemma split_ws_join parts :
  split_ws (join (lit " ") parts) = flat_map split_ws parts.
Proof.
  induction parts as [|p [|q ps] IH]; [done| |].
  - simpl. by rewrite app_nil_r.
  - change (join (lit " ") (p :: q :: ps)) with (p ++ space :: join (lit " ") (q :: ps)).
    rewrite split_ws_app by done. by rewrite IH.
Qed.

Lemma flat_map_split_ws_nonempty chunks :
  flat_map split_ws (List.filter nonempty chunks) = flat_map split_ws chunks.
Proof.
  induction chunks as [|[|c p] ps IH]; simpl; [done|done|]. by rewrite IH.
Qed.

Lemma flat_map_split_ws_strip l :
  flat_map split_ws (List.map strip l) = flat_map split_ws l.
Proof.
  induction l as [|x l IH]; simpl; [done|]. by rewrite split_ws_strip, IH.
Qed.

Lemma startswith_double_space s :
  startswith [space; space] s = true -> exists s'', s = space :: space :: s''.
Proof.
  destruct s as [|c [|d s'']]; cbn [startswith]; try done.
  - by rewrite andb_false_r.
  - unfold char_eqb. rewrite andb_true_r, andb_true_iff. intros [H1 H2].
    apply N.eqb_eq in H1, H2. subst. by exists s''.
Qed.

Lemma split_double_space_words_from n cur s :
  length s <= n ->
  flat_map split_ws (split_from [space; space] 0 cur s) = split_ws (rev cur ++ s).
Proof.
  revert cur s. induction n as [|n IH]; intros cur s Hn.
  - destruct s; [|simpl in Hn; lia]. simpl. by rewrite !app_nil_r.
  - destruct s as [|c s']; [simpl; by rewrite !app_nil_r|].
    cbn [split_from]. destruct (startswith [space; space] (c :: s')) eqn:Hd.
    + apply startswith_double_space in Hd as (s'' & [= -> ->]).
      cbn [flat_map length Nat.sub split_from]. rewrite IH by (simpl in *; lia).
      rewrite split_ws_app by done. simpl. f_equal.
    + rewrite IH by (simpl in *; lia). simpl. by rewrite <- app_assoc.
Qed.

Lemma split_double_space_words s :
  flat_map split_ws (split (lit "  ") s) = split_ws s.
Proof. by apply (split_double_space_words_from (length s)). Qed.

Lemma splitlines_words_from n cur s :
  length s <= n ->
  flat_map split_ws (splitlines_from cur s) = split_ws (rev cur ++ s).
Proof.
  revert cur s. induction n as [|n IH]; intros cur s Hn.
  - destruct s; [|simpl in Hn; lia]. simpl. rewrite app_nil_r.
    destruct cur as [|a cur]; [done|]. simpl. by rewrite app_nil_r.
  - destruct s as [|c s'].
    { simpl. rewrite app_nil_r. destruct cur as [|a cur]; [done|].
      simpl. by rewrite app_nil_r. }
    cbn [splitlines_from]. destruct (is_linebreak c) eqn:Hl.
    + rewrite split_ws_app by (by apply linebreak_isspace).
      cbn [flat_map]. f_equal. destruct s' as [|d s''].
      * by rewrite IH by (simpl in *; lia).
      * destruct ((c =? 13)%N && (d =? 10)%N) eqn:Hcr.
        -- apply andb_true_iff in Hcr as [_ ->%N.eqb_eq].
           rewrite IH by (simpl in *; lia). done.
        -- by rewrite IH by (simpl in *; lia).
    + rewrite IH by (simpl in *; lia). simpl. by rewrite <- app_assoc.
Qed.

Lemma splitlines_words s : flat_map split_ws (splitlines s) = split_ws s.
Proof. by apply (splitlines_words_from (length s)). Qed.

(** Cleaning keeps the words of the text. *)
Lemma clean_text_words text : split_ws (_clean_text text) = split_ws text.
Proof.
  unfold _clean_text.
  rewrite split_ws_strip, split_ws_sub_ws, split_ws_join, flat_map_split_ws_nonempty.
  rewrite <- (splitlines_words text), <- (flat_map_split_ws_strip (splitlines text)).
  induction (List.map strip (splitlines text)) as [|line lines IH]; simpl; [done|].
  rewrite flat_map_app, IH. f_equal.
  by rewrite flat_map_split_ws_strip, split_double_space_words.
Qed.

(** *** A tidy text is its words joined by single spaces *)

Lemma split_ws_from_nonempty cur s : cur <> [] -> split_ws_from cur s <> [].
Proof.
  revert cur. induction s as [|c s IH]; intros cur Hc; simpl.
  - by destruct cur.
  - destruct (isspace c); [by destruct cur|]. by apply IH.
Qed.

Lemma ends_in_space_cons c d s : ends_in_space (c :: d :: s) = ends_in_space (d :: s).
Proof. reflexivity. Qed.

Lemma join_words_from b cur s :
  (cur = [] -> b = true) ->
  spaced b s = true -> ends_in_space s = false ->
  join (lit " ") (split_ws_from cur s) = rev cur ++ s.
Proof.
  revert b cur. induction s as [|c s IH]; intros b cur Hb Hs He.
  - simpl. rewrite app_nil_r. by destruct cur.
  - simpl in Hs |- *. destruct (isspace c) eqn:Hc.
    + apply andb_true_iff in Hs as [[->%N.eqb_eq Hb']%andb_true_iff Hs].
      apply negb_true_iff in Hb'. subst b.
      destruct cur as [|a cur]; [by specialize (Hb eq_refl)|].
      destruct s as [|d s]; [unfold ends_in_space in He; simpl in He; congruence|].
      rewrite ends_in_space_cons in He.
      specialize (IH true [] (fun _ => eq_refl) Hs He).
      assert (split_ws_from [] (d :: s) <> []) as Hne.
      { simpl in Hs |- *. destruct (isspace d); [by rewrite andb_false_r in Hs|].
        by apply split_ws_from_nonempty. }
      destruct (split_ws_from [] (d :: s)) as [|p ps] eqn:E; [done|].
      change (join (lit " ") (rev (a :: cur) :: p :: ps))
        with (rev (a :: cur) ++ space :: join (lit " ") (p :: ps)).
      by rewrite IH.
    + rewrite (IH false (c :: cur)); [simpl; by rewrite <- app_assoc|done|done|].
      destruct s; [done|]. by rewrite ends_in_space_cons in He.
Qed.

Lemma tidy_join_words s : tidy s = true -> join (lit " ") (split_ws s) = s.
Proof.
  unfold tidy. rewrite andb_true_iff, negb_true_iff. intros [Hs He].
  by apply (join_words_from true []).
Qed.

Lemma clean_text_join_words text : _clean_text text = join (lit " ") (split_ws text).
Proof.
  rewrite <- (clean_text_words text). symmetry. apply tidy_join_words, clean_text_tidy.
Qed.

(** The two-stage cleaning gives the words of the text joined by single
    spaces: what [' '.join(text.split())] gives. *)
Theorem clean_text_is_join_of_words (text : str) :
  TextScraper._clean_text text = join (lit " ") (split_ws text).
Proof. apply clean_text_join_words. Qed.

End Words.

(** ** Counts of the raw text *)

Section RawCounts.

Import TextScraper.

Lemma join_length_le sep p ps :
  length (join sep (p :: ps)) <= length p + (length sep + length (join sep ps)).
Proof.
  destruct ps as [|q ps]; [simpl; lia|].
  change (join sep (p :: q :: ps)) with (p ++ sep ++ join sep (q :: ps)).
  rewrite !length_app. lia.
Qed.

Lemma join_words_length_from cur s :
  length (join (lit " ") (split_ws_from cur s)) <= length cur + length s.
Proof.
  revert cur. induction s as [|c s IH]; intros cur.
  - destruct cur as [|a cur]; [simpl; lia|].
    cbn [split_ws_from join]. rewrite length_rev. lia.
  - cbn [split_ws_from]. destruct (isspace c).
    + destruct cur as [|a cur].
      * specialize (IH []). simpl in *. lia.
      * etrans; [apply join_length_le|]. specialize (IH []).
        rewrite length_rev. simpl in *. lia.
    + specialize (IH (c :: cur)). simpl in *. lia.
Qed.

(** The word count of an extraction is the number of whitespace-delimited
    tokens of the raw text of the document without its noise: cleaning
    neither joins nor cuts a word.  The cleaned text is never longer than
    the raw text, and it is empty exactly when the word count is 0. *)
Theorem text_counts_of_raw_text (s : soup) :
  let d := TextScraper._extract_text_content s in
  let raw := get_text false (decompose_all noise s) in
  td_text d = join (lit " ") (split_ws raw)
  /\ td_word_count d = Z.of_nat (length (split_ws raw))
  /\ (td_character_count d <= Z.of_nat (length raw))%Z
  /\ (td_word_count d = 0%Z <-> td_text d = []).
Proof.
  unfold _extract_text_content.
  cbn [td_text td_word_count td_character_count].
  rewrite remove_unwanted_is_noise_removal.
  set (raw := get_text false (decompose_all noise s)).
  rewrite clean_text_words, clean_text_join_words.
  split; [done|]. split; [done|]. split.
  - apply inj_le. pose proof (join_words_length_from [] raw) as H. exact H.
  - split.
    + intros H. destruct (split_ws raw); [done|simpl in H; lia].
    + intros H. rewrite <- (clean_text_words raw), clean_text_join_words, H. done.
Qed.

End RawCounts.

(** ** Summaries *)

Section Summary.

Import TextScraper.

Lemma lstrip_forallb (P : char -> bool) s : forallb P s = true -> forallb P (lstrip s) = true.
Proof.
  induction s as [|c s IH]; simpl; [done|].
  intros [Hc Hs]%andb_true_iff. destruct (isspace c); [by apply IH|].
  simpl. by rewrite Hc, Hs.
Qed.

Lemma rstrip_forallb (P : char -> bool) s : forallb P s = true -> forallb P (rstrip s) = true.
Proof.
  induction s as [|c s IH]; [done|]. rewrite rstrip_cons.
  cbn [forallb]. intros [Hc Hs]%andb_true_iff.
  destruct (nonempty (rstrip s) || negb (isspace c)); [|done].
  simpl. by rewrite Hc, IH.
Qed.

Lemma strip_forallb (P : char -> bool) s : forallb P s = true -> forallb P (strip s) = true.
Proof. intros H. by apply rstrip_forallb, lstrip_forallb. Qed.

Lemma lstrip_starts_clean s : starts_clean (lstrip s) = true.
Proof.
  induction s as [|c s IH]; simpl; [done|].
  destruct (isspace c) eqn:Hc; [done|]. simpl. by rewrite Hc.
Qed.

Lemma rstrip_starts_clean s : starts_clean s = true -> starts_clean (rstrip s) = true.
Proof.
  destruct s as [|c s]; [done|]. rewrite rstrip_cons.
  by destruct (nonempty (rstrip s) || negb (isspace c)).
Qed.

Lemma lstrip_clean_id s : starts_clean s = true -> lstrip s = s.
Proof. destruct s as [|c s]; simpl; [done|]. by destruct (isspace c). Qed.

(** [strip] leaves a stripped text as it is. *)
Lemma strip_strip s : strip (strip s) = strip s.
Proof.
  unfold strip at 1.
  rewrite lstrip_clean_id
    by (unfold strip; apply rstrip_starts_clean, lstrip_starts_clean).
  unfold strip. apply rstrip_id, rstrip_ends.
Qed.

Lemma forallb_rev' (P : char -> bool) s : forallb P (rev s) = forallb P s.
Proof.
  induction s as [|c s IH]; simpl; [done|].
  rewrite forallb_app, IH. simpl. rewrite andb_true_r. apply andb_comm.
Qed.

Lemma re_split_from_pieces sep b cur s p :
  forallb (fun c => negb (sep c)) cur = true ->
  In p (re_split_from sep b cur s) ->
  forallb (fun c => negb (sep c)) p = true.
Proof.
  revert b cur. induction s as [|c s IH]; intros b cur Hcur; simpl.
  - intros [<-|[]]. by rewrite forallb_rev'.
  - destruct (sep c) eqn:Hc.
    + destruct b; [by apply IH|].
      intros [<-|Hp]; [by rewrite forallb_rev'|]. by apply (IH true []).
    + apply IH. simpl. by rewrite Hc.
Qed.

Lemma summary_sentences_wf text x :
  In x (summary_sentences text) ->
  x <> [] /\ strip x = x /\ forallb (fun c => negb (is_sentence_end c)) x = true.
Proof.
  unfold summary_sentences. intros (y & <- & Hy)%in_map_iff.
  apply filter_In in Hy as [Hy Hne]. split; [|split].
  - by destruct (strip y).
  - apply strip_strip.
  - apply strip_forallb. by apply (re_split_from_pieces _ false [] text).
Qed.

(** The sentences of a summary are not empty, carry no whitespace at
    their ends and have none of [.], [!] and [?]. *)
Theorem summary_sentences_spec (text x : str) :
  In x (TextScraper.summary_sentences text) ->
  x <> [] /\ strip x = x /\ forallb (fun c => negb (is_sentence_end c)) x = true.
Proof. apply summary_sentences_wf. Qed.

Lemma endswith_single c s :
  endswith [c] s = match last s with Some d => char_eqb c d | None => false end.
Proof.
  unfold endswith. simpl. destruct s as [|a s] using rev_ind; [done|].
  rewrite rev_app_distr, last_snoc. simpl. by rewrite andb_true_r.
Qed.

Lemma join_last (P : char -> Prop) sep l :
  l <> [] ->
  Forall (fun x => exists y, last x = Some y /\ P y) l ->
  exists y, last (join sep l) = Some y /\ P y.
Proof.
  intros Hne Hl. induction Hl as [|p ps Hp Hps IH]; [done|].
  destruct ps as [|q ps]; [exact Hp|].
  destruct IH as (y & Hy & HP); [done|]. exists y. split; [|done].
  change (join sep (p :: q :: ps)) with (p ++ sep ++ join sep (q :: ps)).
  rewrite !last_app, Hy. done.
Qed.

Lemma forallb_last (P : char -> bool) x :
  x <> [] -> forallb P x = true -> exists y, last x = Some y /\ P y = true.
Proof.
  destruct x as [|a x] using rev_ind; [done|]. intros _.
  rewrite forallb_app, andb_true_iff. simpl. rewrite andb_true_r. intros [_ Ha].
  exists a. by rewrite last_snoc.
Qed.

Lemma slice_to_In {A} n (l : list A) x : In x (slice_to n l) -> In x l.
Proof.
  rewrite <- !list_elem_of_In. unfold slice_to.
  destruct (0 <=? n)%Z; apply subseteq_take.
Qed.

(** The summary is empty when no sentence is selected; otherwise it is
    the selected sentences joined by [". "] with a full stop at the
    end. *)
Lemma summary_of_sentences text n :
  summary_of (summary_sentences text) n =
    match slice_to n (summary_sentences text) with
    | [] => []
    | l => join (lit ". ") l ++ lit "."
    end.
Proof.
  unfold summary_of.
  pose proof (slice_to_In n (summary_sentences text)) as Hin.
  destruct (slice_to n (summary_sentences text)) as [|p ps] eqn:E; [done|].
  destruct (join_last (fun y => is_sentence_end y = false) (lit ". ") (p :: ps))
    as (y & Hy & Hend); [done| |].
  { apply Forall_forall. intros x Hx%list_elem_of_In%Hin%summary_sentences_wf.
    destruct Hx as (Hne & _ & Hall).
    destruct (forallb_last _ x Hne Hall) as (y & Hy & HP).
    exists y. split; [done|]. by apply negb_true_iff in HP. }
  change (lit ".") with [46%N]. rewrite endswith_single, Hy.
  assert (char_eqb 46%N y = false) as ->.
  { unfold char_eqb. destruct (N.eqb_spec 46%N y) as [<-|]; [discriminate Hend|done]. }
  destruct (join (lit ". ") (p :: ps)); [discriminate Hy|done].
Qed.

(** [get_summary] returns the envelope of [scrape] untouched unless the
    scrape succeeded with a text that is not empty; then it adds
    [summary] and [total_sentences] and changes no other field.  The
    summary is empty when no sentence is selected, else it ends with a
    full stop, and [total_sentences] counts all sentences of the text,
    not just the selected ones. *)
Theorem get_summary_spec (w : world) (cfg : Config) (url : str) (max_sentences : Z) :
  let result := TextScraper.scrape w cfg url in
  let e := TextScraper.get_summary w cfg url max_sentences in
  (result !! "success" <> Some (VBool true) \/ result !! "text" = Some (VStr []) ->
   e = result)
  /\ (forall text,
        result !! "success" = Some (VBool true) ->
        result !! "text" = Some (VStr text) -> text <> [] ->
        let sentences := summary_sentences text in
        let selected := slice_to max_sentences sentences in
        e !! "total_sentences" = Some (VInt (Z.of_nat (length sentences)))
        /\ e !! "summary"
           = Some (VStr match selected with
                        | [] => []
                        | l => join (lit ". ") l ++ lit "."
                        end)
        /\ length selected <= length sentences
        /\ (forall f, f <> "summary" -> f <> "total_sentences" -> e !! f = result !! f)).
Proof.
  cbn zeta. unfold get_summary. split.
  - intros [H|H].
    + destruct (scrape w cfg url !! "success") as [[| [|] | | | | |]|]; try done.
    + rewrite H. by destruct (scrape w cfg url !! "success") as [[| [|] | | | | |]|].
  - intros text -> -> Hne. destruct text as [|c text]; [done|]. cbn [nonempty].
    split; [by simplify_map_eq|]. split; [|split].
    + rewrite lookup_insert_ne by done. rewrite lookup_insert_eq.
      rewrite summary_of_sentences.
      by destruct (slice_to max_sentences (summary_sentences (c :: text))).
    + unfold slice_to. destruct (0 <=? max_sentences)%Z; rewrite length_firstn; lia.
    + intros f H1 H2. by rewrite !lookup_insert_ne.
Qed.

End Summary.

Lemma get_summary_spec_witness :
  TextScraper.get_summary (sample_world (Ok (body 3)) (Ok page_with_sentences))
    small_config (lit "site.com/x") 2 !! "summary"
  = Some (VStr (lit "One. Two.")).
Proof.
  destruct (get_summary_spec (sample_world (Ok (body 3)) (Ok page_with_sentences))
              small_config (lit "site.com/x") 2) as [_ H].
  destruct (H (lit "One. Two! Three? Four")) as (_ & H' & _);
    [reflexivity|reflexivity|discriminate|].
  exact H'.
Defined.

Lemma summary_sentences_spec_witness :
  lit "Two" <> [] /\ strip (lit "Two") = lit "Two"
  /\ forallb (fun c => negb (is_sentence_end c)) (lit "Two") = true.
Proof.
  apply (summary_sentences_spec (lit "One. Two! Three? Four")).
  right. left. reflexivity.
Defined.

Example get_summary_example :
  let e n := TextScraper.get_summary
               (sample_world (Ok (body 3)) (Ok page_with_sentences))
               small_config (lit "site.com/x") n in
  e 3%Z !! "summary" = Some (VStr (lit "One. Two. Three."))
  /\ e 3%Z !! "total_sentences" = Some (VInt 4)
  /\ e 0%Z !! "summary" = Some (VStr [])
  /\ e (-1)%Z !! "summary" = Some (VStr (lit "One. Two. Three."))
  /\ e 9%Z !! "summary" = Some (VStr (lit "One. Two. Three. Four.")).
Proof. vm_compute. repeat split. Qed.

(** ** Kinds of links and filtered results *)

Section LinkKinds.

Import URLScraper.

Lemma link_type_cases href :
  (_get_link_type href = email <-> startswith (lit "mailto:") href = true)
  /\ (_get_link_type href = phone ->
      startswith (lit "tel:") href = true)
  /\ (_get_link_type href = anchor ->
      startswith (lit "#") href = true)
  /\ (_get_link_type href = javascript ->
      startswith (lit "javascript:") href = true).
Proof.
  unfold _get_link_type.
  destruct (startswith (lit "mailto:") href); [by repeat split|].
  destruct (startswith (lit "tel:") href); [by repeat split|].
  destruct (startswith (lit "ftp:") href); [by repeat split|].
  destruct (startswith (lit "#") href); [by repeat split|].
  destruct (startswith (lit "javascript:") href); [by repeat split|].
  destruct (existsb _ file_extensions); by repeat split.
Qed.

Lemma first_char_decides p c href :
  startswith (c :: p) href = true -> exists rest, href = c :: rest.
Proof.
  destruct href as [|d rest]; [done|]. cbn [startswith].
  intros [->%char_eqb_eq _]%andb_true_iff. by exists rest.
Qed.

Lemma links_from_anchors w s base_url links l :
  _extract_links w s base_url = Ok links -> In l links ->
  exists a k, In a (find_all anchor_with_href s) /\ link_obj w base_url k a = Ok l.
Proof.
  unfold _extract_links. intros [H _]%extract_from_Ok.
  induction H as [|a l' anchors ls [k Hk] _ IH]; simpl; [done|].
  intros [->|Hin].
  - exists a, k. split; [by left|done].
  - destruct (IH Hin) as (a' & k' & Ha & Hl). exists a', k'. split; [by right|done].
Qed.

(** In a list of links that the extraction returns, an [href] that is
    typed [anchor] or [javascript] is always counted as relative, one
    that is typed [email] or [phone] never is. *)
Theorem link_kind_and_relative (w : world) (s : soup) (base_url : str)
    (links : list link) (l : link) :
  URLScraper._extract_links w s base_url = Ok links -> In l links ->
  (link_type l = anchor \/ link_type l = javascript -> link_is_relative l = true)
  /\ (link_type l = email \/ link_type l = phone -> link_is_relative l = false).
Proof.
  intros He Hin. destruct (links_from_anchors _ _ _ _ _ He Hin) as (a & k & _ & Hl).
  apply link_obj_Ok in Hl as (_ & _ & -> & -> & _).
  set (href := href_of a).
  destruct (link_type_cases href) as (Hmail & Htel & Hanchor & Hjs).
  split.
  - intros [H|H].
    + apply Hanchor, first_char_decides in H as (rest & ->). reflexivity.
    + apply Hjs, first_char_decides in H as (rest & ->). reflexivity.
  - intros [H|H]; apply negb_false_iff; unfold startswith_any, absolute_prefixes;
      cbn [existsb].
    + apply Hmail in H. rewrite H. by rewrite !orb_true_r.
    + apply Htel in H. rewrite H. by rewrite !orb_true_r.
Qed.

Lemma link_kind_and_relative_witness :
  link_is_relative
    {| link_id := 1; link_url := lit "https://site.com#top";
       link_original_href := lit "#top"; link_text := lit "up"; link_title := [];
       link_class := []; link_is_relative := true; link_is_external := false;
       link_type := anchor |} = true.
Proof.
  refine (proj1 (link_kind_and_relative (sample_world (Ok []) (Ok []))
                   page_with_links (lit "https://site.com/x") _ _ eq_refl _) _).
  - left. reflexivity.
  - left. reflexivity.
Defined.

Lemma ids_from_sorted a n :
  StronglySorted Z.lt (List.map (fun k => Z.of_nat k + 1)%Z (seq a n)).
Proof.
  revert a. induction n as [|n IH]; intros a; simpl; constructor; [apply IH|].
  apply Forall_forall. intros x (k & <- & Hk%in_seq)%list_elem_of_In%in_map_iff. lia.
Qed.

Lemma extract_links_ids_sorted w s base_url links :
  _extract_links w s base_url = Ok links ->
  StronglySorted Z.lt (List.map link_id links).
Proof.
  unfold _extract_links. intros [_ ->]%extract_from_Ok. apply ids_from_sorted.
Qed.

Lemma filter_ids_sorted (keep : link -> bool) (ls : list link) :
  StronglySorted Z.lt (List.map link_id ls) ->
  StronglySorted Z.lt (List.map link_id (List.filter keep ls)).
Proof.
  induction ls as [|l ls IH]; simpl; [done|].
  intros [Hs Hall]%StronglySorted_inv. destruct (keep l); [|by apply IH].
  simpl. constructor; [by apply IH|].
  rewrite Forall_forall in Hall |- *.
  intros x (y & <- & [Hy _]%filter_In)%list_elem_of_In%in_map_iff.
  apply Hall, list_elem_of_In, in_map_iff. by exists y.
Qed.

Lemma url_scrape_cases w cfg url :
  (exists u s links,
      validate_url url = Valid u
      /\ _extract_links w s u = Ok links
      /\ scrape w cfg url = success_response w links)
  \/ (exists msg, scrape w cfg url !! "success" = Some (VBool false)
                  /\ scrape w cfg url !! "error" = Some (VStr msg) /\ msg <> []).
Proof.
  assert (forall e, exists msg,
             handle_request_errors w cfg e !! "success" = Some (VBool false)
             /\ handle_request_errors w cfg e !! "error" = Some (VStr msg)
             /\ msg <> []) as Herr.
  { intros e. destruct (error_messages_nonempty w cfg e) as (msg & H1 & H2).
    exists msg. by rewrite handle_request_errors_success. }
  unfold scrape. destruct (validate_url url) as [u|err] eqn:Hv.
  - destruct (get_page_response w u) as [content|e]; [|right; apply Herr].
    destruct (html_parser w content) as [s|e]; [|right; apply Herr].
    destruct (_extract_links w s u) as [links|e] eqn:He; [|right; apply Herr].
    left. by exists u, s, links.
  - right. exists err. unfold _create_empty_response.
    split; [by simplify_map_eq|]. split; [by simplify_map_eq|].
    rewrite validate_url_cases in Hv. destruct url; [by injection Hv as <-|].
    by destruct (startswith_any http_prefixes (strip (c :: url))).
Qed.

Lemma filtered_result_failure keep (result : envelope) :
  result !! "success" <> Some (VBool true) -> filtered_result keep result = result.
Proof.
  unfold filtered_result. by destruct (result !! "success") as [[| [|] | | | | |]|].
Qed.

Lemma filtered_result_success keep w links :
  let e := filtered_result keep (success_response w links) in
  e !! "urls" = Some (VLinks (List.filter keep links))
  /\ e !! "count" = Some (VInt (Z.of_nat (length (List.filter keep links))))
  /\ e !! "success" = Some (VBool true).
Proof.
  unfold filtered_result, success_response. by simplify_map_eq.
Qed.

(** [get_links_by_type] passes a failed scrape on as it is.  After a
    successful one, [urls] holds the links of the wanted type and no
    others, in document order with the ids they had in the full list (so
    the ids increase but need not be contiguous), and [count] is their
    number. *)
Theorem get_links_by_type_spec (w : world) (cfg : Config) (url wanted : str) :
  let result := URLScraper.scrape w cfg url in
  let e := URLScraper.get_links_by_type w cfg url wanted in
  (result !! "success" <> Some (VBool true) -> e = result)
  /\ (result !! "success" = Some (VBool true) ->
      exists urls kept,
        result !! "urls" = Some (VLinks urls)
        /\ e !! "urls" = Some (VLinks kept)
        /\ e !! "count" = Some (VInt (Z.of_nat (length kept)))
        /\ e !! "success" = Some (VBool true)
        /\ (forall l, In l kept <-> In l urls /\ link_kind_name (link_type l) = wanted)
        /\ StronglySorted Z.lt (List.map link_id kept)).
Proof.
  cbn zeta. unfold get_links_by_type. split; [apply filtered_result_failure|].
  destruct (url_scrape_cases w cfg url) as [(u & s & links & Hv & He & ->)|(msg & -> & _)];
    [|done].
  intros _.
  set (keep := fun link : link => PyStr.eqb (link_kind_name (link_type link)) wanted).
  destruct (filtered_result_success keep w links) as (H1 & H2 & H3).
  exists links, (List.filter keep links).
  split; [unfold success_response; by simplify_map_eq|].
  repeat (split; [done|]). split.
  - intros l. rewrite filter_In. unfold keep. by rewrite eqb_eq.
  - by apply filter_ids_sorted, (extract_links_ids_sorted w s u).
Qed.

Lemma get_links_by_type_spec_witness :
  exists urls kept,
    URLScraper.scrape (sample_world (Ok (body 3)) (Ok page_with_links))
      small_config (lit "site.com/x") !! "urls" = Some (VLinks urls)
    /\ URLScraper.get_links_by_type (sample_world (Ok (body 3)) (Ok page_with_links))
         small_config (lit "site.com/x") (lit "file") !! "urls" = Some (VLinks kept)
    /\ StronglySorted Z.lt (List.map link_id kept).
Proof.
  destruct (get_links_by_type_spec (sample_world (Ok (body 3)) (Ok page_with_links))
              small_config (lit "site.com/x") (lit "file")) as [_ H].
  destruct H as (urls & kept & H1 & H2 & _ & _ & _ & H3); [reflexivity|].
  exists urls, kept. split; [exact H1|]. split; [exact H2|exact H3].
Defined.

Example get_links_by_type_example :
  let e ty := URLScraper.get_links_by_type
                (sample_world (Ok (body 3)) (Ok page_with_links))
                small_config (lit "site.com/x") (lit ty) in
  (exists l, e "file" !! "urls" = Some (VLinks [l]) /\ link_id l = 3%Z
             /\ link_class l = lit "ext big" /\ link_is_external l = true)
  /\ e "file" !! "count" = Some (VInt 1)
  /\ e "video" !! "urls" = Some (VLinks [])
  /\ e "web" !! "count" = Some (VInt 0).
Proof. vm_compute. split; [eexists; repeat split|repeat split]. Qed.

Lemma extract_links_is_external w s base_url links l :
  _extract_links w s base_url = Ok links -> In l links ->
  link_is_external l = _is_external_link w (link_url l) base_url.
Proof.
  intros He Hin. destruct (links_from_anchors _ _ _ _ _ He Hin) as (a & k & _ & Hl).
  by apply link_obj_Ok in Hl as (_ & _ & _ & _ & _ & ->).
Qed.

(** [get_external_links] passes a failed scrape on as it is.  After a
    successful one every link that is left is external: [urlparse] gives
    a network location for its URL that is not empty and differs from
    the one of the page; the ids increase and [count] is the number of
    links left. *)
Theorem get_external_links_spec (w : world) (cfg : Config) (url : str) :
  let result := URLScraper.scrape w cfg url in
  let e := URLScraper.get_external_links w cfg url in
  (result !! "success" <> Some (VBool true) -> e = result)
  /\ (result !! "success" = Some (VBool true) ->
      exists u urls kept,
        validate_url url = Valid u
        /\ result !! "urls" = Some (VLinks urls)
        /\ e !! "urls" = Some (VLinks kept)
        /\ e !! "count" = Some (VInt (Z.of_nat (length kept)))
        /\ (forall l, In l kept <-> In l urls /\ link_is_external l = true)
        /\ (forall l, In l kept ->
              exists link_domain base_domain,
                urlparse_netloc w (link_url l) = Some link_domain
                /\ urlparse_netloc w u = Some base_domain
                /\ link_domain <> base_domain /\ link_domain <> [])
        /\ StronglySorted Z.lt (List.map link_id kept)).
Proof.
  cbn zeta. unfold get_external_links. split; [apply filtered_result_failure|].
  destruct (url_scrape_cases w cfg url) as [(u & s & links & Hv & He & ->)|(msg & -> & _)];
    [|done].
  intros _.
  destruct (filtered_result_success link_is_external w links) as (H1 & H2 & H3).
  exists u, links, (List.filter link_is_external links).
  split; [done|]. split; [unfold success_response; by simplify_map_eq|].
  repeat (split; [done|]). split; [|split].
  - intros l. by rewrite filter_In.
  - intros l [Hl Hext]%filter_In.
    rewrite (extract_links_is_external _ _ _ _ _ He Hl) in Hext.
    unfold _is_external_link in Hext.
    destruct (urlparse_netloc w (link_url l)) as [ld|]; [|done].
    destruct (urlparse_netloc w u) as [bd|]; [|done].
    apply andb_true_iff in Hext as [H4 H5]. exists ld, bd. repeat split.
    + intros ->. by rewrite eqb_refl in H4.
    + intros ->. discriminate H5.
  - by apply filter_ids_sorted, (extract_links_ids_sorted w s u).
Qed.

Lemma get_external_links_spec_witness :
  exists kept,
    URLScraper.get_external_links (sample_world (Ok (body 3)) (Ok page_with_links))
      small_config (lit "site.com/x") !! "urls" = Some (VLinks kept)
    /\ StronglySorted Z.lt (List.map link_id kept).
Proof.
  destruct (get_external_links_spec (sample_world (Ok (body 3)) (Ok page_with_links))
              small_config (lit "site.com/x")) as [_ H].
  destruct H as (u & urls & kept & _ & _ & H2 & _ & _ & _ & H3); [reflexivity|].
  exists kept. split; [exact H2|exact H3].
Defined.

End LinkKinds.

(** ** Accepted URLs *)

Section AcceptedUrls.

Lemma startswith_app p s : startswith p (p ++ s) = true.
Proof.
  induction p as [|c p IH]; simpl; [done|]. unfold char_eqb. by rewrite N.eqb_refl, IH.
Qed.

Lemma ends_in_space_app a y : y <> [] -> ends_in_space (a ++ y) = ends_in_space y.
Proof.
  intros Hy. unfold ends_in_space. rewrite last_app.
  destruct (last y) eqn:E; [done|]. by apply last_None in E.
Qed.

Lemma strip_ends s : ends_in_space (strip s) = false.
Proof. apply rstrip_ends. Qed.

Lemma normalized_is_fixed y :
  strip y = y ->
  let u := if negb (startswith_any http_prefixes y) then lit "https://" ++ y else y in
  startswith_any http_prefixes u = true /\ strip u = u /\ validate_url u = Valid u.
Proof.
  intros Hy. cbn zeta.
  assert (forall u, startswith_any http_prefixes u = true -> strip u = u ->
                    validate_url u = Valid u) as Hfix.
  { intros u Hp Hs. rewrite validate_url_cases, Hs, Hp. by destruct u. }
  destruct (startswith_any http_prefixes y) eqn:Hp; cbn [negb].
  - split; [done|]. split; [done|]. by apply Hfix.
  - assert (startswith_any http_prefixes (lit "https://" ++ y) = true) as Hp'.
    { unfold startswith_any, http_prefixes. cbn [existsb].
      by rewrite (startswith_app (lit "https://")), orb_true_r. }
    assert (strip (lit "https://" ++ y) = lit "https://" ++ y) as Hs'.
    { unfold strip. rewrite lstrip_clean_id by done. apply rstrip_id.
      destruct y as [|c y]; [done|].
      rewrite ends_in_space_app by done. rewrite <- Hy. apply strip_ends. }
    split; [done|]. split; [done|]. by apply Hfix.
Qed.

(** A URL that [validate_url] or the route's [validate_url_request]
    accepts starts with [http://] or [https://] and has no whitespace at
    its ends, and [validate_url] accepts it again unchanged: validating
    twice is validating once, and the scraper's own validation changes
    nothing in a URL that the route has let through. *)
Theorem accepted_url_is_normal (url u : str) (data : option str) :
  validate_url url = Valid u \/ validate_url_request data = Valid u ->
  startswith_any http_prefixes u = true /\ strip u = u /\ validate_url u = Valid u.
Proof.
  intros [H|H].
  - unfold validate_url in H. destruct (negb (nonempty url)); [done|].
    injection H as <-. apply normalized_is_fixed, strip_strip.
  - unfold validate_url_request in H. destruct data as [x|]; [|done].
    destruct (negb (nonempty (strip x))); [done|].
    injection H as <-. apply normalized_is_fixed, strip_strip.
Qed.

Lemma accepted_url_is_normal_witness :
  validate_url (lit "https://example.com/a") = Valid (lit "https://example.com/a").
Proof.
  refine (proj2 (proj2 (accepted_url_is_normal (lit "  example.com/a ")
                          (lit "https://example.com/a") None _))).
  left. reflexivity.
Defined.

(** [validate_url] and [validate_url_request] give the same answer for a
    URL string exactly when the string is empty or has a character that
    is not whitespace; on the other strings the route refuses and
    [validate_url] accepts. *)
Theorem validation_agreement (url : str) :
  validate_url url = validate_url_request (Some url)
  <-> (url = [] \/ strip url <> []).
Proof.
  rewrite validate_url_cases. unfold validate_url_request. split.
  - destruct url as [|c url]; [by left|]. intros H. right. intros E.
    rewrite E in H. done.
  - intros [->|H]; [done|]. destruct url as [|c url]; [done|].
    destruct (strip (c :: url)) as [|d y] eqn:E; [done|]. cbn [nonempty negb].
    by destruct (startswith_any http_prefixes (d :: y)).
Qed.

End AcceptedUrls.

(** ** What every envelope of a scraper has *)

Section Outcome.

Lemma validate_url_error url err : validate_url url = Invalid err -> err <> [].
Proof.
  rewrite validate_url_cases. destruct url; [by intros [= <-]|].
  by destruct (startswith_any http_prefixes (strip (c :: url))).
Qed.

Lemma handle_request_errors_outcome w cfg e : outcome w (handle_request_errors w cfg e).
Proof.
  unfold outcome. destruct (error_messages_nonempty w cfg e) as (msg & H1 & H2).
  unfold handle_request_errors in *. rewrite !create_error_response_lookup in *.
  split; [done|]. split; [done|]. right. split; [done|]. by exists msg.
Qed.

Lemma content_too_large_nonempty a b :
  lit "Content too large: " ++ a ++ lit " bytes (max: " ++ b ++ lit ")" <> [].
Proof. discriminate. Qed.

Lemma url_scrape_outcome w cfg url : outcome w (URLScraper.scrape w cfg url).
Proof.
  unfold URLScraper.scrape. destruct (validate_url url) as [u|err] eqn:Hv.
  - destruct (get_page_response w u) as [content|e];
      [|apply handle_request_errors_outcome].
    destruct (html_parser w content) as [s|e]; [|apply handle_request_errors_outcome].
    destruct (URLScraper._extract_links w s u) as [links|e];
      [|apply handle_request_errors_outcome].
    unfold outcome, URLScraper.success_response.
    split; [by simplify_map_eq|]. split; [by simplify_map_eq|].
    left. by simplify_map_eq.
  - unfold outcome, URLScraper._create_empty_response.
    split; [by simplify_map_eq|]. split; [by simplify_map_eq|].
    right. split; [by simplify_map_eq|]. exists err.
    split; [by simplify_map_eq|]. by apply (validate_url_error url).
Qed.

Lemma text_scrape_outcome w cfg url : outcome w (TextScraper.scrape w cfg url).
Proof.
  unfold TextScraper.scrape. destruct (validate_url url) as [u|err] eqn:Hv.
  - destruct (get_page_response w u) as [content|e];
      [|apply handle_request_errors_outcome].
    destruct (Z.of_nat (length content) >? MAX_CONTENT_LENGTH cfg)%Z.
    { unfold outcome, TextScraper._create_empty_response.
      split; [by simplify_map_eq|]. split; [by simplify_map_eq|].
      right. split; [by simplify_map_eq|]. eexists.
      split; [by simplify_map_eq|]. apply content_too_large_nonempty. }
    destruct (html_parser w content) as [s|e]; [|apply handle_request_errors_outcome].
    unfold outcome, TextScraper.success_response.
    split; [by simplify_map_eq|]. split; [by simplify_map_eq|].
    left. by simplify_map_eq.
  - unfold outcome, TextScraper._create_empty_response.
    split; [by simplify_map_eq|]. split; [by simplify_map_eq|].
    right. split; [by simplify_map_eq|]. exists err.
    split; [by simplify_map_eq|]. by apply (validate_url_error url).
Qed.

(** Whatever happens, the envelope of either scraper carries
    [processing_time], [timestamp], [success] and [error]; [error] is
    [None] exactly when [success] is true, and a non-empty message
    otherwise. *)
Theorem scrape_envelope_outcome (w : world) (cfg : Config) (url : str) :
  outcome w (URLScraper.scrape w cfg url) /\ outcome w (TextScraper.scrape w cfg url).
Proof. split; [apply url_scrape_outcome|apply text_scrape_outcome]. Qed.

End Outcome.

(** ** Headings and the meta description *)

Section Metadata.

Import TextScraper.

(** The headings of a document always come as a dictionary with the six
    keys [h1] to [h6]; a level without headings has the empty list, and
    the list of a level has one text for each tag of that level in the
    document. *)
Theorem headings_have_six_levels (s : soup) :
  dom (TextScraper._extract_headings s)
  = ({["h1"; "h2"; "h3"; "h4"; "h5"; "h6"]} : gset string)
  /\ Forall (fun level =>
               exists texts,
                 TextScraper._extract_headings s !! level = Some texts
                 /\ length texts = length (find_all (named level) s))
       heading_levels.
Proof.
  unfold _extract_headings, heading_levels. cbn [List.map list_to_map foldr uncurry fst snd].
  split.
  - rewrite !dom_insert_L, dom_empty_L. set_solver.
  - repeat constructor; eexists; (split; [by simplify_map_eq|]);
      unfold heading_texts; by rewrite length_map.
Qed.

(** The meta description of an extraction is empty, or it is the
    [content] of a [meta] tag of the document, named [description] or
    with property [og:description], that is outside all noise
    elements. *)
Theorem meta_description_source (s : soup) :
  let d := TextScraper._extract_text_content s in
  td_meta_description d = []
  \/ exists m,
       outside_noise s m
       /\ (matches (meta_with "name" "description") m = true
           \/ matches (meta_with "property" "og:description") m = true)
       /\ get_attr (lit "content") (tag_attrs m) = Some (td_meta_description d).
Proof.
  unfold _extract_text_content. cbn [td_meta_description].
  rewrite remove_unwanted_is_noise_removal. unfold _extract_meta_description.
  destruct (find (meta_with "name" "description") (decompose_all noise s))
    as [m'|] eqn:E1.
  - apply find_In in E1 as [Hd Hm]. destruct (survivors _ _ Hd) as (m & Ho & ->).
    rewrite matches_prune in Hm.
    replace (tag_attrs (prune noise m)) with (tag_attrs m) by (by destruct m).
    destruct (get_attr (lit "content") (tag_attrs m)) as [v|] eqn:Ec; [|by left].
    right. exists m. simpl. auto.
  - destruct (find (meta_with "property" "og:description") (decompose_all noise s))
      as [m'|] eqn:E2; [|by left].
    apply find_In in E2 as [Hd Hm]. destruct (survivors _ _ Hd) as (m & Ho & ->).
    rewrite matches_prune in Hm.
    replace (tag_attrs (prune noise m)) with (tag_attrs m) by (by destruct m).
    destruct (get_attr (lit "content") (tag_attrs m)) as [v|] eqn:Ec; [|by left].
    right. exists m. simpl. auto.
Qed.

End Metadata.

(** ** The key store *)

Section KeyStore.

Import Auth.

Implicit Types (k : str) (v info : key_info) (d : key_store).

Lemma store_get_set_eq k v d : store_get k (store_set k v d) = Some v.
Proof.
  induction d as [|[k' v'] d IH]; simpl.
  - by rewrite eqb_refl.
  - destruct (PyStr.eqb k' k) eqn:E; simpl; rewrite E; [done|exact IH].
Qed.

Lemma store_get_set_ne k k' v d :
  k' <> k -> store_get k' (store_set k v d) = store_get k' d.
Proof.
  intros Hne. induction d as [|[k0 v0] d IH]; simpl.
  - destruct (PyStr.eqb k k') eqn:E; [|done]. apply eqb_eq in E. congruence.
  - destruct (PyStr.eqb k0 k) eqn:E; simpl.
    + apply eqb_eq in E as ->.
      destruct (PyStr.eqb k k') eqn:E'; [|done]. apply eqb_eq in E'. congruence.
    + by rewrite IH.
Qed.

Lemma store_set_keys k v d :
  List.map fst (store_set k v d)
  = match store_get k d with
    | Some _ => List.map fst d
    | None => List.map fst d ++ [k]
    end.
Proof.
  induction d as [|[k' v'] d IH]; simpl; [done|].
  destruct (PyStr.eqb k' k) eqn:E; simpl; [done|]. rewrite IH.
  by destruct (store_get k d).
Qed.

Lemma store_set_set k v v' d : store_set k v (store_set k v' d) = store_set k v d.
Proof.
  induction d as [|[k0 v0] d IH]; simpl.
  - by rewrite eqb_refl.
  - destruct (PyStr.eqb k0 k) eqn:E; simpl; rewrite E; [done|]. by rewrite IH.
Qed.

Lemma store_get_In k d : is_Some (store_get k d) <-> In k (List.map fst d).
Proof.
  induction d as [|[k' v'] d IH]; simpl.
  - split; [by intros [? ?]|done].
  - destruct (PyStr.eqb k' k) eqn:E.
    + apply eqb_eq in E as ->. split; [by left|by eexists].
    + rewrite IH. split; [by right|]. intros [->|H]; [|done]. by rewrite eqb_refl in E.
Qed.

Lemma store_get_elem k info d : store_get k d = Some info -> In (k, info) d.
Proof.
  induction d as [|[k' v'] d IH]; simpl; [done|].
  destruct (PyStr.eqb k' k) eqn:E; [|by right; apply IH].
  apply eqb_eq in E as ->. intros [= ->]. by left.
Qed.

Lemma validate_set_eq k info d :
  k <> [] -> active info = true ->
  validate_api_key (store_set k info d) (Some k) = Some info.
Proof.
  intros Hk Ha. unfold validate_api_key. destruct k; [done|]. cbn [nonempty negb].
  by rewrite store_get_set_eq, Ha.
Qed.

Lemma validate_set_ne k k' info d :
  k' <> k ->
  validate_api_key (store_set k info d) (Some k') = validate_api_key d (Some k').
Proof. intros H. unfold validate_api_key. by rewrite store_get_set_ne. Qed.

(** [revoke_api_key] answers [True] exactly for the keys of the store.
    Afterwards the key is never valid, every other key is as valid as
    before, the store still lists the same keys in the same order, and
    revoking again changes nothing. *)
Theorem revoke_api_key_spec (api_key : str) (api_keys : key_store) :
  let (ok, after) := Auth.revoke_api_key api_key api_keys in
  (ok = true <-> In api_key (List.map fst api_keys))
  /\ validate_api_key after (Some api_key) = None
  /\ (forall other, other <> api_key ->
        validate_api_key after (Some other) = validate_api_key api_keys (Some other))
  /\ List.map fst after = List.map fst api_keys
  /\ Auth.revoke_api_key api_key after = (ok, after).
Proof.
  unfold revoke_api_key. destruct (store_get api_key api_keys) as [info|] eqn:E.
  - split; [|split; [|split; [|split]]].
    + split; [|done]. intros _. apply store_get_In. by rewrite E.
    + unfold validate_api_key. destruct (negb (nonempty api_key)); [done|].
      by rewrite store_get_set_eq.
    + intros other H. by apply validate_set_ne.
    + by rewrite store_set_keys, E.
    + rewrite store_get_set_eq. cbn [name created_at]. by rewrite store_set_set.
  - split; [|split; [|split; [|split]]]; try done.
    + split; [done|]. intros H%store_get_In. rewrite E in H. by destruct H.
    + unfold validate_api_key. destruct (negb (nonempty api_key)); [done|]. by rewrite E.
    + by rewrite E.
Qed.

Lemma revoke_api_key_spec_witness :
  validate_api_key
    (Auth.revoke_api_key (lit "k1")
       [(lit "k1", new_key (lit "a") []); (lit "k2", new_key (lit "b") [])]).2
    (Some (lit "k2"))
  = Some (new_key (lit "b") []).
Proof.
  pose proof (revoke_api_key_spec (lit "k1")
                [(lit "k1", new_key (lit "a") []); (lit "k2", new_key (lit "b") [])]) as H.
  cbv beta iota delta [Auth.revoke_api_key store_get PyStr.eqb] in H.
  destruct (Auth.revoke_api_key (lit "k1")
              [(lit "k1", new_key (lit "a") []); (lit "k2", new_key (lit "b") [])])
    as [ok after] eqn:E.
  vm_compute in E. injection E as <- <-.
  destruct H as (_ & _ & H & _). apply (H (lit "k2")). discriminate.
Defined.

(** [generate_api_key] returns ["sk-"] followed by the token.  The new
    key is valid at once and carries the given name; every other key is
    as valid as before; the store grows by at most one entry. *)
Theorem generate_api_key_spec (token now name_ : str) (api_keys : key_store) :
  let (key, after) := Auth.generate_api_key token now name_ api_keys in
  key = lit "sk-" ++ token
  /\ validate_api_key after (Some key) = Some (new_key name_ now)
  /\ (forall other, other <> key ->
        validate_api_key after (Some other) = validate_api_key api_keys (Some other))
  /\ length api_keys <= length after <= length api_keys + 1.
Proof.
  unfold generate_api_key. split; [done|]. split; [by apply validate_set_eq|].
  split; [intros other H; by apply validate_set_ne|].
  rewrite <- !(length_map fst), store_set_keys.
  destruct (store_get (lit "sk-" ++ token) api_keys); rewrite ?length_app; simpl; lia.
Qed.

Lemma generate_api_key_spec_witness :
  validate_api_key
    (Auth.generate_api_key (lit "tok") [] (lit "new") [(lit "k1", new_key (lit "a") [])]).2
    (Some (lit "k1"))
  = Some (new_key (lit "a") []).
Proof.
  pose proof (generate_api_key_spec (lit "tok") [] (lit "new")
                [(lit "k1", new_key (lit "a") [])]) as H.
  destruct (Auth.generate_api_key (lit "tok") [] (lit "new")
              [(lit "k1", new_key (lit "a") [])]) as [key after] eqn:E.
  vm_compute in E. injection E as <- <-.
  destruct H as (_ & _ & H & _). apply (H (lit "k1")). discriminate.
Defined.

End KeyStore.

(** ** Loading the keys *)

Section LoadKeys.

Import Auth.

Lemma store_set_active k v d : active v = true -> all_active d -> all_active (store_set k v d).
Proof.
  intros Hv. unfold all_active. induction 1 as [|[k' v'] d Hk Hd IH]; simpl.
  - by repeat constructor.
  - destruct (PyStr.eqb k' k); constructor; done.
Qed.

Lemma store_set_present k k' v d :
  is_Some (store_get k' d) -> is_Some (store_get k' (store_set k v d)).
Proof.
  intros H. destruct (decide (k' = k)) as [->|Hne].
  - by rewrite store_get_set_eq.
  - by rewrite store_get_set_ne.
Qed.

Lemma store_set_nonempty k v d : store_set k v d <> [].
Proof. destruct d as [|[k' v'] d]; simpl; [done|]. by destruct (PyStr.eqb k' k). Qed.

(** One step of either loop keeps the keys that are there, keeps all
    records active, and a step that stores a key makes it present. *)
Lemma env_step_keeps now d item k :
  is_Some (store_get k d) -> is_Some (store_get k (env_step now d item)).
Proof.
  unfold env_step. destruct (nonempty (strip item)); [apply store_set_present|done].
Qed.

Lemma env_step_active now d item : all_active d -> all_active (env_step now d item).
Proof.
  unfold env_step. destruct (nonempty (strip item)); [by apply store_set_active|done].
Qed.

Lemma file_step_keeps now d line k :
  is_Some (store_get k d) -> is_Some (store_get k (load_file_line now d line)).
Proof.
  unfold load_file_line.
  destruct (nonempty (strip line) && negb (startswith (lit "#") (strip line)));
    [apply store_set_present|done].
Qed.

Lemma file_step_active now d line : all_active d -> all_active (load_file_line now d line).
Proof.
  unfold load_file_line.
  destruct (nonempty (strip line) && negb (startswith (lit "#") (strip line)));
    [by apply store_set_active|done].
Qed.

Lemma fold_keeps {A} (step : key_store -> A -> key_store) (items : list A) d k :
  (forall d x, is_Some (store_get k d) -> is_Some (store_get k (step d x))) ->
  is_Some (store_get k d) -> is_Some (store_get k (fold_left step items d)).
Proof.
  intros Hstep. revert d. induction items as [|x items IH]; intros d H; simpl; [done|].
  by apply IH, Hstep.
Qed.

Lemma fold_active {A} (step : key_store -> A -> key_store) (items : list A) d :
  (forall d x, all_active d -> all_active (step d x)) ->
  all_active d -> all_active (fold_left step items d).
Proof.
  intros Hstep. revert d. induction items as [|x items IH]; intros d H; simpl; [done|].
  by apply IH, Hstep.
Qed.

Lemma fold_stores {A} (step : key_store -> A -> key_store) (items : list A) d k x :
  (forall d x, is_Some (store_get k d) -> is_Some (store_get k (step d x))) ->
  (forall d, is_Some (store_get k (step d x))) ->
  In x items -> is_Some (store_get k (fold_left step items d)).
Proof.
  intros Hkeep Hx. revert d. induction items as [|y items IH]; intros d; simpl; [done|].
  intros [->|Hin]; [by apply fold_keeps|by apply IH].
Qed.

Lemma valid_of_present d k :
  all_active d -> k <> [] -> is_Some (store_get k d) ->
  exists info, validate_api_key d (Some k) = Some info /\ active info = true.
Proof.
  intros Ha Hk [info Hi]. exists info. unfold validate_api_key.
  destruct k; [done|]. cbn [nonempty negb]. rewrite Hi.
  unfold all_active in Ha. rewrite Forall_forall in Ha.
  specialize (Ha _ (proj2 (list_elem_of_In _ _) (store_get_elem _ _ _ Hi))).
  simpl in Ha. by rewrite Ha.
Qed.

(** [_load_api_keys] never gives an empty store, and all its records
    are active.  Every item of the comma-separated [API_KEYS] that is
    not blank is a valid key once stripped, and so is the key of every
    line of the keys file that is read, is not blank, is no comment and
    has a key before its first [|]. *)
Theorem load_api_keys_spec (env_keys : str) (keys_file : option (list str))
    (default_key now : str) :
  let api_keys := Auth._load_api_keys env_keys keys_file default_key now in
  api_keys <> []
  /\ all_active api_keys
  /\ (forall item,
        In item (split (lit ",") env_keys) -> strip item <> [] ->
        exists info, validate_api_key api_keys (Some (strip item)) = Some info)
  /\ (forall lines line,
        keys_file = Some lines -> In line lines ->
        strip line <> [] -> startswith (lit "#") (strip line) = false ->
        let key := strip (hd [] (split (lit "|") (strip line))) in
        key <> [] ->
        exists info, validate_api_key api_keys (Some key) = Some info).
Proof.
  cbn zeta. unfold _load_api_keys.
  set (from_env := load_env_keys now env_keys []).
  set (from_file := match keys_file with
                    | Some lines => fold_left (load_file_line now) lines from_env
                    | None => from_env
                    end).
  assert (all_active from_env) as Henv_active.
  { unfold from_env, load_env_keys. destruct (nonempty env_keys); [|constructor].
    apply (fold_active (env_step now)); [apply env_step_active|constructor]. }
  assert (all_active from_file) as Hfile_active.
  { unfold from_file. destruct keys_file as [lines|]; [|done].
    apply fold_active; [apply file_step_active|done]. }
  assert (forall k, is_Some (store_get k from_env) -> is_Some (store_get k from_file))
    as Hkeep.
  { intros k H. unfold from_file. destruct keys_file as [lines|]; [|done].
    apply fold_keeps; [intros; by apply file_step_keeps|done]. }
  assert (forall k, k <> [] -> is_Some (store_get k from_file) ->
            exists info,
              validate_api_key
                match from_file with
                | [] => store_set default_key
                          (new_key (lit "default_development_key") now) from_file
                | _ => from_file
                end (Some k) = Some info) as Hvalid.
  { intros k Hk Hp. destruct from_file as [|kv rest] eqn:E; [by destruct Hp|].
    destruct (valid_of_present (kv :: rest) k Hfile_active Hk Hp) as (info & H & _).
    by exists info. }
  split; [|split; [|split]].
  - destruct from_file; [apply store_set_nonempty|done].
  - destruct from_file; [|done]. by apply store_set_active.
  - intros item Hin Hne. apply Hvalid; [done|]. apply Hkeep.
    unfold from_env, load_env_keys.
    destruct env_keys as [|c env_keys]; [simpl in Hin; by destruct Hin as [<-|[]]|].
    cbn [nonempty].
    apply (fold_stores (env_step now) _ _ _ item); [intros; by apply env_step_keeps| |done].
    intros d. unfold env_step. destruct (strip item); [done|]. cbn [nonempty].
    by rewrite store_get_set_eq.
  - intros lines line -> Hin Hne Hc Hk. apply Hvalid; [done|]. unfold from_file.
    apply (fold_stores (load_file_line now) _ _ _ line);
      [intros; by apply file_step_keeps| |done].
    intros d. unfold load_file_line. rewrite Hc.
    destruct (strip line); [done|]. cbn [nonempty negb andb].
    by rewrite store_get_set_eq.
Qed.

End LoadKeys.

Lemma load_api_keys_spec_witness :
  exists info,
    Auth.validate_api_key
      (Auth._load_api_keys (lit "alpha, beta ,") None (lit "dev-key-12345") [])
      (Some (lit "beta")) = Some info.
Proof.
  destruct (load_api_keys_spec (lit "alpha, beta ,") None (lit "dev-key-12345") [])
    as (_ & _ & H & _).
  apply (H (lit " beta ")); [right; left; reflexivity|discriminate].
Defined.

Example load_api_keys_example :
  List.map fst (Auth._load_api_keys (lit "alpha, beta ,")
                  (Some [lit "# keys" ++ [10%N]; lit "gamma | build" ++ [10%N];
                         lit "alpha" ++ [10%N]; [10%N]])
                  (lit "dev-key-12345") [])
  = [lit "alpha"; lit "beta"; lit "gamma"]
  /\ Auth.store_get (lit "alpha")
       (Auth._load_api_keys (lit "alpha, beta ,")
          (Some [lit "gamma | build" ++ [10%N]; lit "alpha" ++ [10%N]])
          (lit "dev-key-12345") [])
     = Some (Auth.new_key (lit "file_key") [])
  /\ List.map fst (Auth._load_api_keys (lit " , ") (Some [lit "#x"])
                     (lit "dev-key-12345") [])
     = [lit "dev-key-12345"].
Proof. vm_compute. repeat split. Qed.

(** ** Listing keys *)

Section Listing.

Import Auth.

(** In the listing a key of at most 8 characters is shown whole at the
    start of its [key_id]; of a key of 12 characters or more exactly the
    first 8 and the last 4 are shown, the [key_id] has 15 characters and
    the characters between are left out.  The listing has one entry for
    each key of the store, revoked or not. *)
Theorem mask_key_spec (key : str) :
  (length key <= 8 -> startswith key (mask_key key) = true)
  /\ (12 <= length key ->
      length (mask_key key) = 15
      /\ exists hidden,
           key = firstn 8 key ++ hidden ++ slice_last 4 key
           /\ length hidden = length key - 12
           /\ mask_key key = firstn 8 key ++ lit "..." ++ slice_last 4 key)
  /\ (forall api_keys,
        List.map key_id (list_api_keys api_keys) = List.map (fun kv => mask_key kv.1) api_keys
        /\ List.map listed_active (list_api_keys api_keys)
           = List.map (fun kv => active kv.2) api_keys).
Proof.
  unfold mask_key, slice_to, slice_last. change (Z.to_nat 8) with 8. cbn [Z.leb Z.compare].
  split; [|split].
  - intros H. rewrite firstn_all2 by done. apply startswith_app.
  - intros H. split.
    + rewrite !length_app, length_firstn, length_skipn.
      change (length (lit "...")) with 3. lia.
    + exists (firstn (length key - 12) (skipn 8 key)). split; [|split; [|done]].
      * rewrite <- (firstn_skipn 8 key) at 1. f_equal.
        rewrite <- (firstn_skipn (length key - 12) (skipn 8 key)) at 1. f_equal.
        rewrite skipn_skipn. f_equal. lia.
      * rewrite length_firstn, length_skipn. lia.
  - intros api_keys. unfold list_api_keys. rewrite !map_map. done.
Qed.

Lemma mask_key_spec_witness :
  startswith (lit "secret") (mask_key (lit "secret")) = true.
Proof. apply (proj1 (mask_key_spec (lit "secret"))). simpl. lia. Defined.

Example mask_key_example :
  mask_key (lit "dev-key-12345") = lit "dev-key-...2345"
  /\ mask_key (lit "secret") = lit "secret...cret"
  /\ mask_key (lit "sk-0123456789abcdef") = lit "sk-01234...cdef".
Proof. vm_compute. repeat split. Qed.

End Listing.

(** ** The decorators *)

Section Decorators.

Import Auth.

Lemma validate_truthy api_keys api_key info :
  validate_api_key api_keys api_key = Some info -> truthy api_key = true.
Proof. unfold validate_api_key. destruct api_key as [[|c k]|]; done. Qed.

(** A request that presents a valid key reaches the endpoint under both
    decorators, with the record of the key.  Any other request is
    answered 401 by [require_api_key]; [optional_api_key] answers 401
    when a key is presented and lets the request through without a
    record when none is. *)
Theorem decorators_spec (api_keys : key_store) (w : world) (h : headers)
    (f : option key_info -> response) :
  match validate_api_key api_keys (request_api_key h) with
  | Some info =>
      require_api_key api_keys w h f = f (Some info)
      /\ optional_api_key api_keys w h f = f (Some info)
  | None =>
      (require_api_key api_keys w h f).2 = 401%Z
      /\ (require_api_key api_keys w h f).1 !! "success" = Some (VBool false)
      /\ if truthy (request_api_key h)
         then (optional_api_key api_keys w h f).2 = 401%Z
         else optional_api_key api_keys w h f = f None
  end.
Proof.
  unfold require_api_key, optional_api_key.
  destruct (validate_api_key api_keys (request_api_key h)) as [info|] eqn:E.
  - by rewrite (validate_truthy _ _ _ E).
  - split; [done|]. split; [unfold unauthorized; by simplify_map_eq|].
    by destruct (truthy (request_api_key h)).
Qed.

(** A non-empty [X-API-Key] header decides alone, whatever
    [Authorization] holds; without it the key is the text after
    ["Bearer "] of [Authorization]. *)
Theorem request_api_key_spec (h : headers) :
  (truthy (x_api_key h) = true -> request_api_key h = x_api_key h)
  /\ (forall token,
        truthy (x_api_key h) = false ->
        authorization h = Some (lit "Bearer " ++ token) ->
        request_api_key h = Some token).
Proof.
  unfold request_api_key. split.
  - by intros ->.
  - intros token -> ->. cbn [negb]. by rewrite startswith_app.
Qed.

Lemma request_api_key_spec_witness :
  request_api_key {| x_api_key := Some []; authorization := Some (lit "Bearer abc") |}
  = Some (lit "abc").
Proof.
  apply (proj2 (request_api_key_spec
                  {| x_api_key := Some []; authorization := Some (lit "Bearer abc") |}));
    reflexivity.
Defined.

(** Once a key is revoked, a request that presents it is answered 401 by
    [require_api_key], and by [optional_api_key] as well. *)
Theorem revoked_key_is_rejected (api_keys : key_store) (w : world) (h : headers)
    (f : option key_info -> response) (key : str) :
  request_api_key h = Some key -> key <> [] ->
  let after := (Auth.revoke_api_key key api_keys).2 in
  (require_api_key after w h f).2 = 401%Z
  /\ (optional_api_key after w h f).2 = 401%Z.
Proof.
  intros Hk Hne. cbn zeta.
  assert (validate_api_key (revoke_api_key key api_keys).2 (Some key) = None) as Hv.
  { unfold revoke_api_key, validate_api_key. destruct (negb (nonempty key)); [done|].
    destruct (store_get key api_keys) as [info|] eqn:E; cbn [snd].
    - by rewrite store_get_set_eq.
    - by rewrite E. }
  unfold require_api_key, optional_api_key. rewrite Hk, Hv.
  split; [done|]. by destruct key.
Qed.

Lemma revoked_key_is_rejected_witness :
  (require_api_key
     (Auth.revoke_api_key (lit "k1") [(lit "k1", new_key (lit "a") [])]).2
     (sample_world (Ok []) (Ok []))
     {| x_api_key := Some (lit "k1"); authorization := None |}
     (fun _ => (∅, 200%Z))).2 = 401%Z.
Proof.
  apply (revoked_key_is_rejected [(lit "k1", new_key (lit "a") [])]
           (sample_world (Ok []) (Ok []))
           {| x_api_key := Some (lit "k1"); authorization := None |}
           (fun _ => (∅, 200%Z)) (lit "k1")); [reflexivity|discriminate].
Defined.

End Decorators.

(** ** The scraping routes *)

Section Routes.

Import Auth App.

Lemma status_of_outcome w (e : envelope) : outcome w e -> status_matches (e, status_of e).
Proof.
  intros (_ & _ & [[Hs _]|[Hs _]]); unfold status_matches, status_of; cbn [fst snd];
    rewrite Hs; repeat split; auto; done.
Qed.

Lemma unauthorized_status error message_ w : status_matches (unauthorized error message_ w).
Proof.
  unfold status_matches, unauthorized. cbn [fst snd].
  assert (H : (list_to_map
                 [("success", VBool false); ("error", VStr (lit error));
                  ("message", VStr (lit message_)); ("timestamp", VStr (utcnow w))]
               : envelope) !! "success" = Some (VBool false)) by (by simplify_map_eq).
  rewrite H. repeat split; auto; done.
Qed.

Lemma urls_error_body_success w msg : urls_error_body w msg !! "success" = Some (VBool false).
Proof. unfold urls_error_body. by simplify_map_eq. Qed.

Lemma text_error_body_success w msg : text_error_body w msg !! "success" = Some (VBool false).
Proof. unfold text_error_body. by simplify_map_eq. Qed.

Lemma refusal_status (body : envelope) (code : Z) :
  body !! "success" = Some (VBool false) -> code = 400%Z \/ code = 500%Z ->
  status_matches (body, code).
Proof.
  intros Hs Hc. unfold status_matches. cbn [fst snd]. rewrite Hs.
  destruct Hc as [-> | ->]; repeat split; auto; done.
Qed.

Lemma scrape_route_status error_body scraper w cfg pause body_ :
  (forall msg, error_body w msg !! "success" = Some (VBool false)) ->
  (forall url, outcome w (scraper w cfg url)) ->
  status_matches (scrape_route error_body scraper w cfg pause body_).
Proof.
  intros Herr Hok. unfold scrape_route, route_exception_response. destruct body_ as [data|e].
  - destruct (validate_url_request data) as [u|err].
    + destruct pause as [e|]; [apply refusal_status; auto|].
      by apply (status_of_outcome w).
    + apply refusal_status; auto.
  - apply refusal_status; auto.
Qed.

(** Both scraping routes answer with a status that goes with the body:
    200 exactly when [success] is true in the body, and otherwise 400,
    401 or 500 with [success] false, for every request, key store and
    behaviour of the network. *)
Theorem api_scrape_status (api_keys : key_store) (w : world) (cfg : Config)
    (pause : option exn) (h : headers) (body_ : request_body) :
  status_matches (App.api_scrape_urls api_keys w cfg pause h body_)
  /\ status_matches (App.api_scrape_text api_keys w cfg pause h body_).
Proof.
  unfold api_scrape_urls, api_scrape_text, require_api_key.
  destruct (validate_api_key api_keys (request_api_key h)) as [info|];
    [|split; apply unauthorized_status].
  split; apply scrape_route_status.
  - apply urls_error_body_success.
  - intros url. apply url_scrape_outcome.
  - apply text_error_body_success.
  - intros url. apply text_scrape_outcome.
Qed.

Lemma validate_url_request_error data err :
  validate_url_request data = Invalid err -> err <> [].
Proof.
  unfold validate_url_request. destruct data as [x|]; [|by intros [= <-]].
  destruct (negb (nonempty (strip x))); [by intros [= <-]|done].
Qed.

Lemma error_bodies_have_failure_shape w msg :
  msg <> [] ->
  failure_shape links_payload (urls_error_body w msg) = true
  /\ failure_shape text_payload (text_error_body w msg) = true.
Proof. destruct msg as [|c msg]; [done|]. intros _. split; by vm_compute. Qed.

(** When an authorised request cannot be read or its URL is refused by
    the route (no [url] field, or a [url] that is empty once stripped),
    the route answers itself, with 400 or 500, and its body has every
    payload field of the operation at its empty value. *)
Theorem route_refusals_keep_the_shape (api_keys : key_store) (w : world)
    (cfg : Config) (pause : option exn) (h : headers) (body_ : request_body) :
  is_Some (validate_api_key api_keys (request_api_key h)) ->
  route_refuses body_ = true ->
  let r1 := App.api_scrape_urls api_keys w cfg pause h body_ in
  let r2 := App.api_scrape_text api_keys w cfg pause h body_ in
  failure_shape links_payload r1.1 = true
  /\ failure_shape text_payload r2.1 = true
  /\ r1.2 = r2.2 /\ (r1.2 = 400%Z \/ r1.2 = 500%Z).
Proof.
  intros [info Hauth] Href. cbn zeta.
  unfold api_scrape_urls, api_scrape_text, require_api_key. rewrite Hauth.
  unfold scrape_route, route_exception_response, route_refuses in *. destruct body_ as [data|e].
  - destruct (validate_url_request data) as [u|err] eqn:E; [done|]. cbn [fst snd].
    destruct (error_bodies_have_failure_shape w err) as [H1 H2];
      [by apply (validate_url_request_error data)|]. auto.
  - cbn [fst snd].
    destruct (error_bodies_have_failure_shape w
                (lit "Internal server error: " ++ exn_message e)) as [H1 H2]; [done|].
    auto.
Qed.

Lemma route_refusals_keep_the_shape_witness :
  failure_shape links_payload
    (App.api_scrape_urls [(lit "k1", new_key (lit "a") [])]
       (sample_world (Ok []) (Ok [])) small_config None
       {| x_api_key := None; authorization := Some (lit "Bearer k1") |}
       (Ok (Some (lit "   ")))).1 = true.
Proof.
  refine (proj1 (route_refusals_keep_the_shape [(lit "k1", new_key (lit "a") [])]
                   (sample_world (Ok []) (Ok [])) small_config None
                   {| x_api_key := None; authorization := Some (lit "Bearer k1") |}
                   (Ok (Some (lit "   "))) _ _)).
  - eexists. reflexivity.
  - reflexivity.
Defined.

Example api_scrape_examples :
  let keys := [(lit "k1", new_key (lit "a") [])] in
  let w := sample_world (Ok (body 3)) (Ok page_with_links) in
  let with_key := {| x_api_key := Some (lit "k1"); authorization := None |} in
  let without := {| x_api_key := None; authorization := Some (lit "Basic k1") |} in
  let url := Ok (Some (lit "site.com")) in
  (App.api_scrape_urls keys w small_config None with_key url).2 = 200%Z
  /\ (App.api_scrape_urls keys w small_config None without url).2 = 401%Z
  /\ (App.api_scrape_urls keys w small_config None with_key (Ok None)).2 = 400%Z
  /\ (App.api_scrape_text keys w small_config None with_key (Ok (Some (lit " ")))).1
       !! "error" = Some (VStr (lit "URL cannot be empty"))
  /\ (App.api_scrape_text keys w small_config None with_key
        (Raise (OtherException (lit "bad body")))).2 = 500%Z
  /\ (App.api_scrape_urls keys w small_config
        (Some (OtherException (lit "sleep length must be non-negative")))
        with_key url).2 = 500%Z.
Proof. vm_compute. repeat split. Qed.

End Routes.

(** ** Removal passes *)

Section Removal.

Import TextScraper.

Lemma decompose_all_twice m s : decompose_all m (decompose_all m s) = decompose_all m s.
Proof.
  rewrite decompose_decompose. apply decompose_all_ext.
  intros name attrs cls. unfold either. apply orb_diag.
Qed.

(** Two removal passes give the same tree in either order, and a pass
    that is run again removes nothing more: the order of the loops of
    [_remove_unwanted_elements] does not matter. *)
Theorem removal_passes_commute (m1 m2 : matcher) (s : soup) :
  decompose_all m2 (decompose_all m1 s) = decompose_all m1 (decompose_all m2 s)
  /\ decompose_all m1 (decompose_all m1 s) = decompose_all m1 s
  /\ TextScraper._remove_unwanted_elements (TextScraper._remove_unwanted_elements s)
     = TextScraper._remove_unwanted_elements s.
Proof.
  split; [|split].
  - rewrite !decompose_decompose. apply decompose_all_ext.
    intros name attrs cls. unfold either. apply orb_comm.
  - apply decompose_all_twice.
  - rewrite !remove_unwanted_is_noise_removal. apply decompose_all_twice.
Qed.

(** [_extract_text_content] changes the soup it is given; extracting
    again from the changed soup gives the same result. *)
Theorem extract_text_content_stable (s : soup) :
  TextScraper._extract_text_content (TextScraper._remove_unwanted_elements s)
  = TextScraper._extract_text_content s.
Proof.
  unfold _extract_text_content.
  rewrite !remove_unwanted_is_noise_removal, decompose_all_twice. done.
Qed.

(** The text of an extraction is made of text nodes that are outside
    all noise elements: every text node that is left when the text is
    read was in the document, under no noise element. *)
Theorem text_only_from_outside_noise (s : soup) (t : str) :
  In (Text t) (descendants_of (TextScraper._remove_unwanted_elements s)) ->
  outside_noise s (Text t).
Proof.
  rewrite remove_unwanted_is_noise_removal.
  intros (n & Ho & E)%survivors.
  destruct n as [t'|t'|name attrs cls kids]; simpl in E; [|done..]. by injection E as ->.
Qed.

Lemma text_only_from_outside_noise_witness :
  outside_noise page_with_noise (Text (lit " Real ")).
Proof.
  apply text_only_from_outside_noise. vm_compute. do 2 right. left. reflexivity.
Defined.

End Removal.
